(** * Jump-and-run: physics, collisions and world life cycle

    A shallow embedding of [jump_and_run.py].

    Number model.  Python's [float] values are idealised as exact
    rationals ([Q]); Python's [int] values are [Z].  [int(f)] truncates
    toward zero and [f // 10] is the floor of the quotient.  Comparisons
    are the decidable ones of [Q]; results of arithmetic are compared up
    to [Qeq] ([==]) where a value is computed, and with Leibniz equality
    where the code leaves a field alone or stores a literal.

    pygame.  [pygame.Rect] is a record of four integers, here unbounded
    (the game stays far inside the range of a C [int]); [colliderect]
    follows pygame 2.6: rectangles of zero width or height collide with
    nothing and touching edges do not overlap.  Drawing, fonts, the
    clock and the event queue are outside the model: an iteration of the
    main loop receives its [dt], its events and the pressed keys. *)

From Stdlib Require Import ZArith QArith Qround Bool List Sorted Lia Lqa.
Import ListNotations.

Open Scope Z_scope.

(** ** Numbers *)

Module Num.

(** [int(f)] for a float [f]: truncation toward zero. *)
Definition py_int (q : Q) : Z := Z.quot (Qnum q) (Z.pos (Qden q)).

(** [a < b] and [a >= b] on floats, as booleans. *)
Definition ltb (a b : Q) : bool := negb (Qle_bool b a).
Definition geb (a b : Q) : bool := Qle_bool b a.

(** Python's two-argument [min(a, b)]: [b] when [b < a], else [a]. *)
Definition py_min (a b : Q) : Q := if ltb b a then b else a.

(** Python's two-argument [max(a, b)]: [b] when [b > a], else [a]. *)
Definition py_max (a b : Q) : Q := if ltb a b then b else a.

(** The same on integers. *)
Definition py_minZ (a b : Z) : Z := if b <? a then b else a.
Definition py_maxZ (a b : Z) : Z := if a <? b then b else a.

(** [f // 10] followed by [int]. *)
Definition floordiv10 (q : Q) : Z := Qfloor (q / 10).

End Num.

(** ** Settings *)

Definition SCREEN_WIDTH : Z := 980.
Definition SCREEN_HEIGHT : Z := 560.

Definition GRAVITY : Q := 2000.
Definition PLAYER_SPEED : Q := 280.
Definition PLAYER_JUMP_VELOCITY : Q := 750.

Definition PLATFORM_MIN_WIDTH : Z := 60.
Definition PLATFORM_MAX_WIDTH : Z := 300.
Definition PLATFORM_MIN_GAP : Z := 60.
Definition PLATFORM_MAX_GAP : Z := 120.
Definition PLATFORM_MIN_Y : Z := 120.
Definition PLATFORM_MAX_Y : Z := SCREEN_HEIGHT - 60.
Definition GEN_AHEAD : Z := SCREEN_WIDTH * 2.
Definition CLEANUP_BEHIND : Z := 600.
Definition TEMP_PLATFORM_CHANCE : Q := 15 # 100.
Definition TEMP_PLATFORM_LIFETIME : Q := 5.

(** ** pygame.Rect *)

Module Rect.

Record t : Type := mk { x : Z; y : Z; w : Z; h : Z }.

Definition top (r : t) : Z := y r.
Definition bottom (r : t) : Z := y r + h r.
Definition left (r : t) : Z := x r.
Definition right (r : t) : Z := x r + w r.

Definition set_x (r : t) (v : Z) : t := mk v (y r) (w r) (h r).
Definition set_y (r : t) (v : Z) : t := mk (x r) v (w r) (h r).

(** [r.top = v] and [r.bottom = v] move the rectangle, keeping its size. *)
Definition set_top (r : t) (v : Z) : t := set_y r v.
Definition set_bottom (r : t) (v : Z) : t := set_y r (v - h r).

(** [a.colliderect(b)]. *)
Definition colliderect (a b : t) : bool :=
  if (w a =? 0) || (h a =? 0) || (w b =? 0) || (h b =? 0) then false
  else
    (Z.min (x a) (x a + w a) <? Z.max (x b) (x b + w b)) &&
    (Z.min (y a) (y a + h a) <? Z.max (y b) (y b + h b)) &&
    (Z.max (x a) (x a + w a) >? Z.min (x b) (x b + w b)) &&
    (Z.max (y a) (y a + h a) >? Z.min (y b) (y b + h b)).

End Rect.

(** ** Platform *)

Module Platform.

Record t : Type := mk {
  x : Z;
  y : Z;
  w : Z;
  h : Z;
  rect : Rect.t;
  temporary : bool;
  timer : Q;
  activated : bool
}.

(** [Platform.__init__(x, y, w, h=20, temporary=False)]; every call
    site passes integers. *)
Definition init (x0 y0 w0 h0 : Z) (temp : bool) : t :=
  {| x := x0; y := y0; w := w0; h := h0;
     rect := Rect.mk x0 y0 w0 h0;
     temporary := temp;
     timer := 2;
     activated := false |}.

Definition set_activated (p : t) (b : bool) : t :=
  {| x := x p; y := y p; w := w p; h := h p;
     rect := rect p; temporary := temporary p;
     timer := timer p; activated := b |}.

Definition set_timer (p : t) (v : Q) : t :=
  {| x := x p; y := y p; w := w p; h := h p;
     rect := rect p; temporary := temporary p;
     timer := v; activated := activated p |}.

End Platform.

(** ** Player *)

(** The keys the game reads from [pygame.key.get_pressed()]. *)
Record Keys : Type := mkKeys {
  K_LEFT : bool; K_a : bool;
  K_RIGHT : bool; K_d : bool;
  K_SPACE : bool; K_w : bool; K_UP : bool
}.

Module Player.

Record t : Type := mk {
  x : Q;
  y : Q;
  w : Z;
  h : Z;
  vx : Q;
  vy : Q;
  on_ground : bool;
  rect : Rect.t
}.

(** [Player.__init__(x, y)], called with integer coordinates. *)
Definition init (x0 y0 : Z) : t :=
  {| x := inject_Z x0; y := inject_Z y0; w := 36; h := 52;
     vx := 0; vy := 0; on_ground := false;
     rect := Rect.mk x0 y0 36 52 |}.

Definition set_vx (pl : t) (v : Q) : t :=
  {| x := x pl; y := y pl; w := w pl; h := h pl; vx := v; vy := vy pl;
     on_ground := on_ground pl; rect := rect pl |}.

Definition set_vy (pl : t) (v : Q) : t :=
  {| x := x pl; y := y pl; w := w pl; h := h pl; vx := vx pl; vy := v;
     on_ground := on_ground pl; rect := rect pl |}.

Definition set_x (pl : t) (v : Q) : t :=
  {| x := v; y := y pl; w := w pl; h := h pl; vx := vx pl; vy := vy pl;
     on_ground := on_ground pl; rect := rect pl |}.

Definition set_y (pl : t) (v : Q) : t :=
  {| x := x pl; y := v; w := w pl; h := h pl; vx := vx pl; vy := vy pl;
     on_ground := on_ground pl; rect := rect pl |}.

Definition set_on_ground (pl : t) (b : bool) : t :=
  {| x := x pl; y := y pl; w := w pl; h := h pl; vx := vx pl; vy := vy pl;
     on_ground := b; rect := rect pl |}.

Definition set_rect (pl : t) (r : Rect.t) : t :=
  {| x := x pl; y := y pl; w := w pl; h := h pl; vx := vx pl; vy := vy pl;
     on_ground := on_ground pl; rect := r |}.

(** The target velocity computed at the head of [apply_input]. *)
Definition target_vx (keys : Keys) : Q :=
  let t0 := 0%Q in
  let t1 := if K_LEFT keys || K_a keys then (t0 - PLAYER_SPEED)%Q else t0 in
  if K_RIGHT keys || K_d keys then (t1 + PLAYER_SPEED)%Q else t1.

(** [Player.apply_input(keys, dt)]. *)
Definition apply_input (pl : t) (keys : Keys) (dt : Q) : t :=
  let target := target_vx keys in
  let accel := 2000%Q in
  if Num.ltb (vx pl) target then
    set_vx pl (Num.py_min (vx pl + accel * dt) target)
  else if Num.ltb target (vx pl) then
    set_vx pl (Num.py_max (vx pl - accel * dt) target)
  else pl.

(** [Player.jump()]. *)
Definition jump (pl : t) : t :=
  if on_ground pl then set_on_ground (set_vy pl (- PLAYER_JUMP_VELOCITY)) false
  else pl.

(** [Player.physics(dt)]. *)
Definition physics (pl : t) (dt : Q) : t :=
  let pl1 := set_vy pl (vy pl + GRAVITY * dt) in
  let pl2 := set_vy pl1 (Num.py_min (vy pl1) 2000) in
  let pl3 := set_x pl2 (x pl2 + vx pl2 * dt) in
  let pl4 := set_y pl3 (y pl3 + vy pl3 * dt) in
  set_rect pl4
    (Rect.set_y (Rect.set_x (rect pl4) (Num.py_int (x pl4))) (Num.py_int (y pl4))).

End Player.

(** ** resolve_collisions *)

(** Lines 133-134: the box is moved by the truncated vertical
    displacement and [on_ground] is cleared. *)
Definition vertical_move (pl : Player.t) (dt : Q) : Player.t :=
  let r := Player.rect pl in
  Player.set_on_ground
    (Player.set_rect pl
       (Rect.set_y r (Rect.y r + Num.py_int (Player.vy pl * dt))))
    false.

(** Body of the first loop of [resolve_collisions], for one platform. *)
Definition vertical_step (pl : Player.t) (p : Platform.t) : Player.t :=
  if Rect.colliderect (Player.rect pl) (Platform.rect p) then
    let pl1 :=
      if Num.ltb 0 (Player.vy pl) then
        Player.set_on_ground
          (Player.set_rect pl
             (Rect.set_bottom (Player.rect pl) (Rect.top (Platform.rect p))))
          true
      else if Num.ltb (Player.vy pl) 0 then
        Player.set_rect pl
          (Rect.set_top (Player.rect pl) (Rect.bottom (Platform.rect p)))
      else pl in
    let pl2 := Player.set_vy pl1 0 in
    Player.set_y pl2 (inject_Z (Rect.y (Player.rect pl2)))
  else pl.

(** Lines 133-143: the vertical pass. *)
Definition vertical_pass (pl : Player.t) (platforms : list Platform.t) (dt : Q)
  : Player.t :=
  fold_left vertical_step platforms (vertical_move pl dt).

(** Line 146: the box is moved by the truncated horizontal displacement. *)
Definition horizontal_move (pl : Player.t) (dt : Q) : Player.t :=
  let r := Player.rect pl in
  Player.set_rect pl (Rect.set_x r (Rect.x r + Num.py_int (Player.vx pl * dt))).

(** Body of the second loop, for one platform. *)
Definition horizontal_step (pl : Player.t) (p : Platform.t) : Player.t :=
  if Rect.colliderect (Player.rect pl) (Platform.rect p) then
    Player.set_y pl (inject_Z (SCREEN_HEIGHT + 1000))
  else pl.

(** Lines 146-150: the horizontal pass. *)
Definition horizontal_pass (pl : Player.t) (platforms : list Platform.t) (dt : Q)
  : Player.t :=
  fold_left horizontal_step platforms (horizontal_move pl dt).

Definition resolve_collisions (pl : Player.t) (platforms : list Platform.t) (dt : Q)
  : Player.t :=
  horizontal_pass (vertical_pass pl platforms dt) platforms dt.

(** ** The random source *)

(** Python's [random] module is an external collaborator.  A generator is
    a stream of raw integers with a cursor; [randint(a, b)] reduces the
    next raw value into [[a, b]] and [random()] into a 53-bit fraction of
    [[0, 1)].  Every in-range sequence of draws is produced by some
    stream, so a statement for all generators covers all outcomes. *)
Module Random.

Record t : Type := mk { raw : nat -> Z; pos : nat }.

Definition advance (g : t) : t := mk (raw g) (S (pos g)).

Definition randint (a b : Z) (g : t) : Z * t :=
  (a + (raw g (pos g)) mod (b - a + 1), advance g).

Definition random (g : t) : Q * t :=
  (((raw g (pos g)) mod (2 ^ 53)) # (2 ^ 53), advance g).

End Random.

(** ** World *)

Module World.

Record t : Type := mk {
  platforms : list Platform.t;
  max_x : Z
}.

(** [World.__init__()]. *)
Definition init : t :=
  let ground := Platform.init (-1000) (SCREEN_HEIGHT - 40) 1500 80 false in
  {| platforms := [] ++ [ground];
     max_x := Platform.x ground + Platform.w ground |}.

(** [World.get_last_y()]. *)
Definition get_last_y (wd : t) : Z :=
  match rev (platforms wd) with
  | p :: _ => Platform.y p
  | [] => SCREEN_HEIGHT - 200
  end.

(** One iteration of the loop of [generate_until] (lines 106-113). *)
Definition generate_one (wd : t) (g : Random.t) : t * Random.t :=
  let last_x := max_x wd in
  let (width, g1) := Random.randint PLATFORM_MIN_WIDTH PLATFORM_MAX_WIDTH g in
  let (gap, g2) := Random.randint PLATFORM_MIN_GAP PLATFORM_MAX_GAP g1 in
  let (dy, g3) := Random.randint (-120) 120 g2 in
  let new_y :=
    Num.py_maxZ PLATFORM_MIN_Y (Num.py_minZ PLATFORM_MAX_Y (get_last_y wd + dy)) in
  let (u, g4) := Random.random g3 in
  let temp := Num.ltb u TEMP_PLATFORM_CHANCE in
  let p := Platform.init (last_x + gap) new_y width 20 temp in
  ({| platforms := platforms wd ++ [p];
      max_x := Platform.x p + Platform.w p |}, g4).

(** The [while] loop of [generate_until], unrolled at most [fuel] times. *)
Fixpoint generate_loop (fuel : nat) (wd : t) (limit_x : Q) (g : Random.t)
  : t * Random.t :=
  match fuel with
  | O => (wd, g)
  | S k =>
      if Num.ltb (inject_Z (max_x wd)) limit_x then
        let (wd', g') := generate_one wd g in
        generate_loop k wd' limit_x g'
      else (wd, g)
  end.

(** Every iteration moves the frontier right by at least one unit, so
    the distance to [limit_x], rounded up, bounds the iterations. *)
Definition generate_fuel (wd : t) (limit_x : Q) : nat :=
  Z.to_nat (Qceiling limit_x - max_x wd).

(** [World.generate_until(limit_x)]. *)
Definition generate_until (wd : t) (limit_x : Q) (g : Random.t) : t * Random.t :=
  generate_loop (generate_fuel wd limit_x) wd limit_x g.

(** Body of the loop of [update] (lines 117-121), for one platform. *)
Definition update_platform (dt : Q) (player : Player.t) (p : Platform.t)
  : Platform.t :=
  if Platform.temporary p then
    let p1 :=
      if Rect.colliderect (Player.rect player) (Platform.rect p)
      then Platform.set_activated p true else p in
    if Platform.activated p1
    then Platform.set_timer p1 (Platform.timer p1 + dt) else p1
  else p.

(** The condition of the comprehension on line 122. *)
Definition survives (p : Platform.t) : bool :=
  negb (Platform.temporary p && Platform.activated p &&
        Num.geb (Platform.timer p) TEMP_PLATFORM_LIFETIME).

(** [World.update(dt, player)]. *)
Definition update (wd : t) (dt : Q) (player : Player.t) : t :=
  {| platforms := filter survives (map (update_platform dt player) (platforms wd));
     max_x := max_x wd |}.

(** The condition of the comprehension on line 125. *)
Definition ahead_of (cam_x : Q) (p : Platform.t) : bool :=
  Num.ltb (cam_x - inject_Z CLEANUP_BEHIND) (inject_Z (Platform.x p + Platform.w p)).

(** [World.cleanup(cam_x)]. *)
Definition cleanup (wd : t) (cam_x : Q) : t :=
  {| platforms := filter (ahead_of cam_x) (platforms wd);
     max_x := max_x wd |}.

End World.

(** ** The main loop *)

Inductive Key : Type := KEY_ESCAPE | KEY_SPACE | KEY_OTHER.

Inductive Event : Type :=
| QUIT
| KEYDOWN (key : Key)
| OTHER_EVENT.

Definition is_escape (k : Key) : bool :=
  match k with KEY_ESCAPE => true | _ => false end.

Definition is_space (k : Key) : bool :=
  match k with KEY_SPACE => true | _ => false end.

Module Game.

(** The local variables of [main] that survive an iteration of its
    loop, and the state of the global random generator. *)
Record t : Type := mk {
  running : bool;
  in_menu : bool;
  highscore : Z;
  score : Z;
  player : Player.t;
  world : World.t;
  camera_x : Q;
  rng : Random.t
}.

(** Lines 165-172. *)
Definition init (g : Random.t) : t :=
  {| running := true; in_menu := false; highscore := 0; score := 0;
     player := Player.init 120 (SCREEN_HEIGHT - 180);
     world := World.init;
     camera_x := 0;
     rng := g |}.

Definition stop (st : t) : t :=
  {| running := false; in_menu := in_menu st; highscore := highscore st;
     score := score st; player := player st; world := world st;
     camera_x := camera_x st; rng := rng st |}.

(** Lines 185-189: a new round. *)
Definition restart (st : t) : t :=
  {| running := running st; in_menu := false; highscore := highscore st;
     score := 0;
     player := Player.init 120 (SCREEN_HEIGHT - 180);
     world := World.init;
     camera_x := 0;
     rng := rng st |}.

(** Lines 178-189: the body of the event loop. *)
Definition handle_event (st : t) (ev : Event) : t :=
  match ev with
  | QUIT => stop st
  | KEYDOWN k =>
      let st1 := if is_escape k then stop st else st in
      if in_menu st1 && is_space k then restart st1 else st1
  | OTHER_EVENT => st
  end.

(** Lines 192-215: one tick of the simulation. *)
Definition tick (st : t) (dt : Q) (keys : Keys) : t :=
  let pl0 := player st in
  let pl1 := if K_SPACE keys || K_w keys || K_UP keys then Player.jump pl0 else pl0 in
  let pl2 := Player.apply_input pl1 keys dt in
  let pl3 := Player.physics pl2 dt in
  let pl4 := resolve_collisions pl3 (World.platforms (world st)) dt in
  let (wd1, g1) :=
    World.generate_until (world st) (camera_x st + inject_Z GEN_AHEAD) (rng st) in
  let wd2 := World.update wd1 dt pl4 in
  let wd3 := World.cleanup wd2 (camera_x st) in
  let target_cam := (Player.x pl4 - inject_Z SCREEN_WIDTH * (3 # 10))%Q in
  let cam := (camera_x st + (target_cam - camera_x st) * Num.py_min 1 (8 * dt))%Q in
  let sc := Num.floordiv10 (Player.x pl4) in
  let dead := Num.ltb (inject_Z (SCREEN_HEIGHT + 400)) (Player.y pl4) in
  {| running := running st;
     in_menu := if dead then true else in_menu st;
     highscore := if dead then Num.py_maxZ (highscore st) sc else highscore st;
     score := sc;
     player := pl4;
     world := wd3;
     camera_x := cam;
     rng := g1 |}.

(** What one iteration of the [while] loop reads from outside. *)
Record Input : Type := mkInput {
  dt : Q;
  events : list Event;
  keys : Keys
}.

(** Lines 175-233, without the drawing: one iteration of the loop. *)
Definition frame (st : t) (i : Input) : t :=
  let st1 := fold_left handle_event (events i) st in
  if negb (in_menu st1) then tick st1 (dt i) (keys i) else st1.

(** The score the iteration draws (lines 222 and 229). *)
Definition displayed_score (st : t) : Z := score st.

(** The loop itself, for a finite sequence of inputs: an iteration runs
    only while [running] holds. *)
Fixpoint run (st : t) (inputs : list Input) : t :=
  match inputs with
  | [] => st
  | i :: rest => if running st then run (frame st i) rest else st
  end.

End Game.

(** * Vocabulary of the properties, and sample data *)

(** [overlaps pl ps]: some platform of [ps] overlaps the box of [pl]. *)
Definition overlaps (pl : Player.t) (ps : list Platform.t) : bool :=
  existsb (fun p => Rect.colliderect (Player.rect pl) (Platform.rect p)) ps.

(** The death check of [main] (line 213). *)
Definition death_check (pl : Player.t) : bool :=
  Num.ltb (inject_Z (SCREEN_HEIGHT + 400)) (Player.y pl).

(** A Body running into the side of a wall. *)
Definition runner : Player.t :=
  {| Player.x := 100; Player.y := 400; Player.w := 36; Player.h := 52;
     Player.vx := 600; Player.vy := 0; Player.on_ground := false;
     Player.rect := Rect.mk 100 400 36 52 |}.

Definition wall : Platform.t := Platform.init 140 380 50 100 false.

(** The Body in free fall over an empty stretch: the ground is far away. *)
Definition faller : Player.t :=
  {| Player.x := 120; Player.y := 100; Player.w := 36; Player.h := 52;
     Player.vx := 120; Player.vy := 300; Player.on_ground := true;
     Player.rect := Rect.mk 120 100 36 52 |}.

Definition ground : Platform.t :=
  Platform.init (-1000) (SCREEN_HEIGHT - 40) 1500 80 false.

(** After a hit the Body is [settled]: [vy] is the literal 0 and [y] is
    the box's [y]. *)
Definition settled (pl : Player.t) : Prop :=
  Player.vy pl = 0%Q /\ Player.y pl = inject_Z (Rect.y (Player.rect pl)).

(** A Body falling onto two platforms that both reach into its box. *)
Definition lander : Player.t :=
  {| Player.x := 0; Player.y := 100; Player.w := 36; Player.h := 52;
     Player.vx := 0; Player.vy := 600; Player.on_ground := false;
     Player.rect := Rect.mk 0 100 36 52 |}.

Definition step_lower : Platform.t := Platform.init 0 160 100 20 false.
Definition step_upper : Platform.t := Platform.init 0 155 100 20 false.

(** The Body at rest on the ground platform of a fresh World: its
    bottom edge (468 + 52) is the ground's top edge (520). *)
Definition rester : Player.t :=
  {| Player.x := 120; Player.y := 468; Player.w := 36; Player.h := 52;
     Player.vx := 0; Player.vy := 0; Player.on_ground := true;
     Player.rect := Rect.mk 120 468 36 52 |}.

Definition no_keys : Keys := mkKeys false false false false false false false.

(** Lines 196-198 of [main]: the Body's part of a tick. *)
Definition body_tick (pl : Player.t) (keys : Keys) (platforms : list Platform.t) (dt : Q)
  : Player.t :=
  resolve_collisions (Player.physics (Player.apply_input pl keys dt) dt) platforms dt.

(** A sequence of [World.update(dt, player)] calls. *)
Definition updates (wd : World.t) (calls : list (Q * Player.t)) : World.t :=
  fold_left (fun wd' c => World.update wd' (fst c) (snd c)) calls wd.

(** The Body's box has not overlapped [p] in a call. *)
Definition untouched (p : Platform.t) (c : Q * Player.t) : Prop :=
  Rect.colliderect (Player.rect (snd c)) (Platform.rect p) = false.

(** A temporary platform and a Body whose box reaches into it. *)
Definition bridge : Platform.t := Platform.init 100 500 100 20 true.

Definition stander : Player.t :=
  {| Player.x := 120; Player.y := 460; Player.w := 36; Player.h := 52;
     Player.vx := 0; Player.vy := 0; Player.on_ground := false;
     Player.rect := Rect.mk 120 460 36 52 |}.

Definition bridge_world : World.t :=
  {| World.platforms := [bridge]; World.max_x := 200 |}.

(** [strip ps f]: a non-empty platform sequence built by appending, each
    new platform of positive width starting at least the minimum gap
    past the frontier of its predecessors; [f] is the frontier reached. *)
Inductive strip : list Platform.t -> Z -> Prop :=
| strip_first (p : Platform.t) :
    0 < Platform.w p ->
    strip [p] (Platform.x p + Platform.w p)
| strip_next (ps : list Platform.t) (f : Z) (p : Platform.t) :
    strip ps f ->
    f + PLATFORM_MIN_GAP <= Platform.x p ->
    0 < Platform.w p ->
    strip (ps ++ [p]) (Platform.x p + Platform.w p).

Definition x_before (p q : Platform.t) : Prop := Platform.x p < Platform.x q.

(** The invariant of generation: the platforms form a strip whose
    frontier is [max_x]. *)
Definition generated (wd : World.t) : Prop :=
  strip (World.platforms wd) (World.max_x wd).

(** A sequence of [generate_until] calls, the generator threaded through. *)
Fixpoint generate_calls (wd : World.t) (limits : list Q) (g : Random.t)
  : World.t * Random.t :=
  match limits with
  | [] => (wd, g)
  | limit_x :: rest =>
      let (wd', g') := World.generate_until wd limit_x g in
      generate_calls wd' rest g'
  end.

(** A generator, an iteration without events or keys, and a round that
    ended with the Body under the world. *)
Definition seeds : Random.t := Random.mk (fun n => Z.of_nat n * 7919 + 13) 0.

Definition idle : Game.Input := Game.mkInput (1 # 60) [] no_keys.

Definition fallen : Game.t :=
  {| Game.running := true; Game.in_menu := true;
     Game.highscore := 57; Game.score := 57;
     Game.player :=
       {| Player.x := 575; Player.y := 1560; Player.w := 36; Player.h := 52;
          Player.vx := 280; Player.vy := 0; Player.on_ground := false;
          Player.rect := Rect.mk 579 300 36 52 |};
     Game.world := World.init;
     Game.camera_x := 281;
     Game.rng := seeds |}.

(** A temporary platform under the falling [lander]. *)
Definition bridge_low : Platform.t := Platform.init 0 160 100 20 true.

(** The shape [generate_until] gives a platform. *)
Definition fresh (p : Platform.t) : Prop :=
  PLATFORM_MIN_WIDTH <= Platform.w p <= PLATFORM_MAX_WIDTH /\
  PLATFORM_MIN_Y <= Platform.y p <= PLATFORM_MAX_Y /\
  Platform.h p = 20 /\
  Platform.activated p = false /\
  Platform.timer p = 2%Q /\
  Platform.rect p = Rect.mk (Platform.x p) (Platform.y p) (Platform.w p) (Platform.h p).

(** [q] follows [p] within the generation ranges: the horizontal gap is
    between [PLATFORM_MIN_GAP] and [PLATFORM_MAX_GAP] and the heights
    differ by at most 120. *)
Definition reachable (p q : Platform.t) : Prop :=
  Platform.x p + Platform.w p + PLATFORM_MIN_GAP <= Platform.x q /\
  Platform.x q <= Platform.x p + Platform.w p + PLATFORM_MAX_GAP /\
  -120 <= Platform.y q - Platform.y p <= 120.

(** [course ps l]: the ground followed by fresh platforms, each reachable
    from its predecessor; [l] is the last one. *)
Inductive course : list Platform.t -> Platform.t -> Prop :=
| course_ground : course [ground] ground
| course_next (ps : list Platform.t) (l p : Platform.t) :
    course ps l -> reachable l p -> fresh p -> course (ps ++ [p]) p.

Definition permanent (p : Platform.t) : bool := negb (Platform.temporary p).

(** [q] starts at least the minimum gap past the right edge of [p]. *)
Definition gap_before (p q : Platform.t) : Prop :=
  Platform.x p + Platform.w p + PLATFORM_MIN_GAP <= Platform.x q.

(** A platform of positive size, inside the frontier [m], whose box is
    in step with its coordinates. *)
Definition sound (m : Z) (p : Platform.t) : Prop :=
  0 < Platform.w p /\ 0 < Platform.h p /\
  Platform.x p + Platform.w p <= m /\
  Platform.rect p = Rect.mk (Platform.x p) (Platform.y p) (Platform.w p) (Platform.h p).

(** The invariant of the World over a whole game: any two platforms are
    separated by the minimum gap, in list order, and each is sound. *)
Definition tidy (wd : World.t) : Prop :=
  StronglySorted gap_before (World.platforms wd) /\
  Forall (sound (World.max_x wd)) (World.platforms wd).

(** A World of two platforms and a box over the edge of the first. *)
Definition two_steps : World.t :=
  {| World.platforms := [ground; Platform.init 600 400 100 20 false];
     World.max_x := 700 |}.

Definition edge_box : Rect.t := Rect.mk 480 500 36 52.

(** Lines 192-197 of [main]: the Body after the keys and gravity have
    acted, before the collisions are resolved. *)
Definition steered (pl : Player.t) (keys : Keys) (dt : Q) : Player.t :=
  let pl1 := if K_SPACE keys || K_w keys || K_UP keys then Player.jump pl else pl in
  Player.physics (Player.apply_input pl1 keys dt) dt.

(** The events that end the loop (lines 178-182). *)
Definition quits (ev : Event) : bool :=
  match ev with
  | QUIT => true
  | KEYDOWN k => is_escape k
  | OTHER_EVENT => false
  end.

(** A round about to end: a Body running right, just left of the [wall]. *)
Definition doomed : Game.t :=
  {| Game.running := true; Game.in_menu := false;
     Game.highscore := 3; Game.score := 9;
     Game.player :=
       {| Player.x := 90; Player.y := 400; Player.w := 36; Player.h := 52;
          Player.vx := 600; Player.vy := 0; Player.on_ground := false;
          Player.rect := Rect.mk 90 400 36 52 |};
     Game.world := {| World.platforms := [wall]; World.max_x := 5000 |};
     Game.camera_x := 0;
     Game.rng := seeds |}.

Definition hold_right : Keys := mkKeys false false true false false false false.

(** What the first loop maintains, for a Body that entered the pass with
    vertical velocity [v0]: [vy] is still [v0] or has been zeroed, the
    box keeps its size, and [on_ground] is only set together with a
    zeroed [vy], on a Body that was falling. *)
Definition vertical_inv (v0 : Q) (r0 : Rect.t) (pl : Player.t) : Prop :=
  (Player.vy pl = v0 \/ Player.vy pl = 0%Q) /\
  Rect.w (Player.rect pl) = Rect.w r0 /\
  Rect.h (Player.rect pl) = Rect.h r0 /\
  (Player.on_ground pl = true -> Player.vy pl = 0%Q /\ (0 < v0)%Q).

(** The World follows a course and its frontier is the last right edge. *)
Definition on_course (wd : World.t) : Prop :=
  exists l, course (World.platforms wd) l /\
            World.max_x wd = Platform.x l + Platform.w l.

(** * Properties *)

(** ** Comparisons *)

Lemma ltb_lt (a b : Q) : Num.ltb a b = true <-> (a < b)%Q.
Proof.
  unfold Num.ltb. rewrite negb_true_iff. split; intro H.
  - apply Qnot_le_lt. intro L. apply Qle_bool_iff in L. congruence.
  - destruct (Qle_bool b a) eqn:E; [|reflexivity].
    apply Qle_bool_iff in E. exfalso. exact (Qlt_not_le _ _ H E).
Qed.

Lemma ltb_ge (a b : Q) : Num.ltb a b = false <-> (b <= a)%Q.
Proof. unfold Num.ltb. rewrite negb_false_iff. apply Qle_bool_iff. Qed.

Lemma geb_le (a b : Q) : Num.geb a b = true <-> (b <= a)%Q.
Proof. apply Qle_bool_iff. Qed.

Lemma geb_lt (a b : Q) : Num.geb a b = false <-> (a < b)%Q.
Proof.
  unfold Num.geb. split; intro H.
  - apply Qnot_le_lt. intro L. apply Qle_bool_iff in L. congruence.
  - destruct (Qle_bool b a) eqn:E; [|reflexivity].
    apply Qle_bool_iff in E. exfalso. exact (Qlt_not_le _ _ H E).
Qed.

Lemma py_min_le_r (a b : Q) : (Num.py_min a b <= b)%Q.
Proof.
  unfold Num.py_min. destruct (Num.ltb b a) eqn:E.
  - apply Qle_refl.
  - apply ltb_ge in E. exact E.
Qed.

Lemma py_min_glb (a b c : Q) :
  (c <= a)%Q -> (c <= b)%Q -> (c <= Num.py_min a b)%Q.
Proof. unfold Num.py_min. destruct (Num.ltb b a); auto. Qed.

Lemma py_max_ge_r (a b : Q) : (b <= Num.py_max a b)%Q.
Proof.
  unfold Num.py_max. destruct (Num.ltb a b) eqn:E.
  - apply Qle_refl.
  - apply ltb_ge in E. exact E.
Qed.

Lemma py_max_lub (a b c : Q) :
  (a <= c)%Q -> (b <= c)%Q -> (Num.py_max a b <= c)%Q.
Proof. unfold Num.py_max. destruct (Num.ltb a b); auto. Qed.

(** ** Player.physics and Player.apply_input *)

(** C6.  Fall-speed clamp: whatever the Body state and the time step (in
    particular for every [dt >= 0]), the vertical velocity after
    [Player.physics(dt)] is at most the maximum fall speed 2000. *)
Theorem physics_fall_speed_clamped (pl : Player.t) (dt : Q) :
  (Player.vy (Player.physics pl dt) <= 2000)%Q.
Proof.
  unfold Player.physics. cbn [Player.vy Player.set_rect Player.set_y
    Player.set_x Player.set_vy].
  apply py_min_le_r.
Qed.

(** The three targets of [apply_input]. *)
Lemma target_vx_cases (keys : Keys) :
  let left := K_LEFT keys || K_a keys in
  let right := K_RIGHT keys || K_d keys in
  Player.target_vx keys =
    match left, right with
    | true, false => (- PLAYER_SPEED)%Q
    | false, true => PLAYER_SPEED
    | _, _ => 0%Q
    end.
Proof.
  unfold Player.target_vx. cbn zeta.
  destruct (K_LEFT keys || K_a keys), (K_RIGHT keys || K_d keys); reflexivity.
Qed.

(** C7.  No overshoot: for [dt >= 0] the horizontal velocity after
    [apply_input] lies between the velocity before the call and the
    target, which is [+SPEED] for right only, [-SPEED] for left only and
    0 when neither or both directions are pressed. *)
Theorem apply_input_no_overshoot (pl : Player.t) (keys : Keys) (dt : Q) :
  (0 <= dt)%Q ->
  let left := K_LEFT keys || K_a keys in
  let right := K_RIGHT keys || K_d keys in
  let target :=
    match left, right with
    | true, false => (- PLAYER_SPEED)%Q
    | false, true => PLAYER_SPEED
    | _, _ => 0%Q
    end in
  let v := Player.vx pl in
  let v' := Player.vx (Player.apply_input pl keys dt) in
  (v <= v' /\ v' <= target)%Q \/ (target <= v' /\ v' <= v)%Q.
Proof.
  intros Hdt left right target v v'.
  assert (Ht : Player.target_vx keys = target) by apply target_vx_cases.
  subst v'. unfold Player.apply_input. cbn zeta. rewrite Ht.
  fold v.
  assert (Hacc : (0 <= 2000 * dt)%Q).
  { apply Qmult_le_0_compat; [discriminate | exact Hdt]. }
  destruct (Num.ltb v target) eqn:E1.
  - apply ltb_lt in E1. left. cbn [Player.vx Player.set_vx]. split.
    + apply py_min_glb; [|apply Qlt_le_weak; exact E1].
      rewrite <- (Qplus_0_r v) at 1.
      apply Qplus_le_compat; [apply Qle_refl | exact Hacc].
    + apply py_min_le_r.
  - destruct (Num.ltb target v) eqn:E2.
    + apply ltb_lt in E2. right. cbn [Player.vx Player.set_vx]. split.
      * apply py_max_ge_r.
      * apply py_max_lub; [|apply Qlt_le_weak; exact E2].
        unfold Qminus. rewrite <- (Qplus_0_r v) at 2.
        apply Qplus_le_compat; [apply Qle_refl|].
        apply (Qopp_le_compat 0 (2000 * dt)). exact Hacc.
    + apply ltb_ge in E1. apply ltb_ge in E2. fold v.
      left. split; [apply Qle_refl | exact E2].
Qed.

Lemma apply_input_no_overshoot_witness :
  let pl := Player.init 120 380 in
  let keys := mkKeys false false true false false false false in
  let v' := Player.vx (Player.apply_input pl keys (1 # 60)) in
  (0 <= 1 # 60)%Q /\
  ((0 <= v' /\ v' <= PLAYER_SPEED)%Q \/ (PLAYER_SPEED <= v' /\ v' <= 0)%Q).
Proof.
  split.
  - discriminate.
  - apply (apply_input_no_overshoot (Player.init 120 380)
             (mkKeys false false true false false false false) (1 # 60)).
    discriminate.
Defined.

(** ** World.cleanup *)

Lemma filter_twice {A : Type} (f : A -> bool) (l : list A) :
  filter f (filter f l) = filter f l.
Proof.
  induction l as [|a l IH]; [reflexivity|].
  cbn [filter]. destruct (f a) eqn:E.
  - cbn [filter]. rewrite E, IH. reflexivity.
  - exact IH.
Qed.

(** C8.  Cleanup idempotence: for every World and every [camera_x],
    calling [World.cleanup(camera_x)] twice in succession leaves the same
    platforms (and the same World) as calling it once. *)
Theorem cleanup_idempotent (wd : World.t) (camera_x : Q) :
  World.cleanup (World.cleanup wd camera_x) camera_x = World.cleanup wd camera_x.
Proof.
  unfold World.cleanup. cbn [World.platforms World.max_x].
  rewrite filter_twice. reflexivity.
Qed.

(** ** resolve_collisions *)

Lemma overlaps_false (pl : Player.t) (ps : list Platform.t) :
  overlaps pl ps = false <->
  forall p, In p ps -> Rect.colliderect (Player.rect pl) (Platform.rect p) = false.
Proof.
  unfold overlaps. induction ps as [|q ps IH]; cbn [existsb In].
  - split; [intros _ p [] | reflexivity].
  - rewrite orb_false_iff, IH. split.
    + intros [Hq Hps] p [<-|Hin]; auto.
    + intro H. split; [apply H; left; reflexivity | intros p Hp; apply H; right; exact Hp].
Qed.

(** The second loop only ever writes [y], and writes the same value. *)
Lemma horizontal_loop (ps : list Platform.t) (pl : Player.t) :
  fold_left horizontal_step ps pl =
    if overlaps pl ps then Player.set_y pl (inject_Z (SCREEN_HEIGHT + 1000)) else pl.
Proof.
  revert pl. induction ps as [|p ps IH]; intro pl; [reflexivity|].
  cbn [fold_left]. rewrite IH. unfold overlaps, horizontal_step. cbn [existsb].
  destruct (Rect.colliderect (Player.rect pl) (Platform.rect p)); cbn [orb].
  - cbn [Player.rect Player.set_y].
    destruct (existsb _ ps); reflexivity.
  - reflexivity.
Qed.

(** A platform that does not overlap leaves the Body alone. *)
Lemma vertical_loop_clear (ps : list Platform.t) (pl : Player.t) :
  overlaps pl ps = false -> fold_left vertical_step ps pl = pl.
Proof.
  revert pl. induction ps as [|p ps IH]; intros pl H; [reflexivity|].
  unfold overlaps in H. cbn [existsb] in H. apply orb_false_iff in H.
  destruct H as [Hp Hps]. cbn [fold_left]. unfold vertical_step at 2.
  rewrite Hp. apply IH. exact Hps.
Qed.

(** The first loop never touches [x] or [vx]. *)
Lemma vertical_step_x_vx (pl : Player.t) (p : Platform.t) :
  Player.x (vertical_step pl p) = Player.x pl /\
  Player.vx (vertical_step pl p) = Player.vx pl /\
  Rect.x (Player.rect (vertical_step pl p)) = Rect.x (Player.rect pl).
Proof.
  unfold vertical_step.
  destruct (Rect.colliderect _ _); [|auto].
  destruct (Num.ltb 0 (Player.vy pl)); [cbn; auto|].
  destruct (Num.ltb (Player.vy pl) 0); cbn; auto.
Qed.

Lemma vertical_loop_x_vx (ps : list Platform.t) (pl : Player.t) :
  Player.x (fold_left vertical_step ps pl) = Player.x pl /\
  Player.vx (fold_left vertical_step ps pl) = Player.vx pl /\
  Rect.x (Player.rect (fold_left vertical_step ps pl)) = Rect.x (Player.rect pl).
Proof.
  revert pl. induction ps as [|p ps IH]; intro pl; [auto|].
  cbn [fold_left]. destruct (IH (vertical_step pl p)) as (Hx & Hv & Hr).
  destruct (vertical_step_x_vx pl p) as (Hx' & Hv' & Hr').
  rewrite Hx, Hv, Hr. auto.
Qed.

Lemma vertical_pass_x_vx (pl : Player.t) (ps : list Platform.t) (dt : Q) :
  Player.x (vertical_pass pl ps dt) = Player.x pl /\
  Player.vx (vertical_pass pl ps dt) = Player.vx pl /\
  Rect.x (Player.rect (vertical_pass pl ps dt)) = Rect.x (Player.rect pl).
Proof.
  unfold vertical_pass.
  destruct (vertical_loop_x_vx ps (vertical_move pl dt)) as (Hx & Hv & Hr).
  rewrite Hx, Hv, Hr. cbn. auto.
Qed.

(** C4.  Lateral collision is lethal: when the box, moved by the
    (truncated) horizontal displacement, overlaps some platform,
    [resolve_collisions] puts [y] at [SCREEN_HEIGHT + 1000], strictly
    beyond the death threshold [SCREEN_HEIGHT + 400] so that the death
    check fires; [vx] and [x] are those before the call and the box stays
    where the displacement put it: nothing is snapped or pushed back. *)
Theorem lateral_collision_lethal (pl : Player.t) (ps : list Platform.t) (dt : Q) :
  let moved := horizontal_move (vertical_pass pl ps dt) dt in
  let r := resolve_collisions pl ps dt in
  overlaps moved ps = true ->
  Player.y r = inject_Z (SCREEN_HEIGHT + 1000) /\
  (inject_Z (SCREEN_HEIGHT + 400) < Player.y r)%Q /\
  death_check r = true /\
  Player.vx r = Player.vx pl /\
  Player.x r = Player.x pl /\
  Player.rect r = Player.rect moved /\
  Rect.x (Player.rect r) = Rect.x (Player.rect pl) + Num.py_int (Player.vx pl * dt).
Proof.
  intros moved r H.
  assert (Hr : r = Player.set_y moved (inject_Z (SCREEN_HEIGHT + 1000))).
  { subst r. unfold resolve_collisions, horizontal_pass.
    rewrite horizontal_loop. fold moved. rewrite H. reflexivity. }
  destruct (vertical_pass_x_vx pl ps dt) as (Hx & Hv & Hrx).
  rewrite Hr. unfold death_check. cbn [Player.y Player.vx Player.x Player.rect Player.set_y].
  repeat split.
  - subst moved. unfold horizontal_move. cbn. exact Hv.
  - subst moved. unfold horizontal_move. cbn. exact Hx.
  - subst moved. unfold horizontal_move. cbn [Player.rect Player.set_rect Rect.x Rect.set_x].
    rewrite Hrx, Hv. reflexivity.
Qed.

Lemma lateral_collision_lethal_witness :
  let r := resolve_collisions runner [wall] (1 # 60) in
  overlaps (horizontal_move (vertical_pass runner [wall] (1 # 60)) (1 # 60)) [wall] = true /\
  Player.y r = inject_Z (SCREEN_HEIGHT + 1000) /\
  Player.vx r = 600%Q /\
  Rect.x (Player.rect r) = 110.
Proof.
  split; [reflexivity|].
  destruct (lateral_collision_lethal runner [wall] (1 # 60) eq_refl)
    as (Hy & _ & _ & Hvx & _ & _ & Hrx).
  split; [exact Hy|]. split; [exact Hvx | exact Hrx].
Defined.

(** C10.  Frame condition: when no platform overlaps the box after the
    vertical displacement, nor after the horizontal one, the call leaves
    [x], [y], [vx], [vy] (and [w], [h]) as they were and sets [on_ground]
    to false; only the box has moved, by the two truncated
    displacements. *)
Theorem resolve_collisions_frame (pl : Player.t) (ps : list Platform.t) (dt : Q) :
  let pv := vertical_move pl dt in
  let ph := horizontal_move pv dt in
  (forall p, In p ps ->
     Rect.colliderect (Player.rect pv) (Platform.rect p) = false) ->
  (forall p, In p ps ->
     Rect.colliderect (Player.rect ph) (Platform.rect p) = false) ->
  let r := resolve_collisions pl ps dt in
  Player.x r = Player.x pl /\ Player.y r = Player.y pl /\
  Player.vx r = Player.vx pl /\ Player.vy r = Player.vy pl /\
  Player.w r = Player.w pl /\ Player.h r = Player.h pl /\
  Player.on_ground r = false /\
  Player.rect r =
    Rect.mk (Rect.x (Player.rect pl) + Num.py_int (Player.vx pl * dt))
            (Rect.y (Player.rect pl) + Num.py_int (Player.vy pl * dt))
            (Rect.w (Player.rect pl)) (Rect.h (Player.rect pl)).
Proof.
  intros pv ph Hv Hh r.
  apply overlaps_false in Hv. apply overlaps_false in Hh.
  assert (Hr : r = ph).
  { subst r. unfold resolve_collisions, vertical_pass.
    rewrite (vertical_loop_clear ps (vertical_move pl dt) Hv).
    unfold horizontal_pass. rewrite horizontal_loop.
    fold pv. fold ph. rewrite Hh. reflexivity. }
  rewrite Hr. subst ph pv. unfold horizontal_move, vertical_move. cbn.
  repeat split.
Qed.

Lemma resolve_collisions_frame_witness :
  let r := resolve_collisions faller [ground] (1 # 60) in
  Player.x r = 120%Q /\ Player.y r = 100%Q /\
  Player.vx r = 120%Q /\ Player.vy r = 300%Q /\
  Player.on_ground r = false /\
  Player.rect r = Rect.mk 122 105 36 52.
Proof.
  assert (Hv : forall p, In p [ground] ->
    Rect.colliderect (Player.rect (vertical_move faller (1 # 60))) (Platform.rect p) = false).
  { intros p [<-|[]]. reflexivity. }
  assert (Hh : forall p, In p [ground] ->
    Rect.colliderect
      (Player.rect (horizontal_move (vertical_move faller (1 # 60)) (1 # 60)))
      (Platform.rect p) = false).
  { intros p [<-|[]]. reflexivity. }
  destruct (resolve_collisions_frame faller [ground] (1 # 60) Hv Hh)
    as (Hx & Hy & Hvx & Hvy & _ & _ & Hg & Hr).
  repeat split; assumption.
Defined.

(** *** The vertical pass *)

(** A settled Body is a fixed point of the loop body: with [vy = 0]
    neither branch moves the box, and the two assignments that follow
    store what is already there. *)
Lemma vertical_step_settled (pl : Player.t) (p : Platform.t) :
  settled pl -> vertical_step pl p = pl.
Proof.
  intros [Hvy Hy]. unfold vertical_step.
  destruct (Rect.colliderect _ _); [|reflexivity].
  rewrite Hvy. cbn [Num.ltb Qle_bool Qnum Qden Z.mul Z.leb Z.compare negb].
  destruct pl as [x0 y0 w0 h0 vx0 vy0 g0 r0]. cbn in *. subst. reflexivity.
Qed.

Lemma vertical_loop_settled (ps : list Platform.t) (pl : Player.t) :
  settled pl -> fold_left vertical_step ps pl = pl.
Proof.
  intro H. induction ps as [|p ps IH]; [reflexivity|].
  cbn [fold_left]. rewrite (vertical_step_settled pl p H). exact IH.
Qed.

(** What one overlapping platform does. *)
Lemma vertical_step_hit (pl : Player.t) (p : Platform.t) :
  Rect.colliderect (Player.rect pl) (Platform.rect p) = true ->
  let r := vertical_step pl p in
  settled r /\
  ((0 < Player.vy pl)%Q ->
     Player.rect r = Rect.set_bottom (Player.rect pl) (Rect.top (Platform.rect p)) /\
     Player.on_ground r = true) /\
  ((Player.vy pl < 0)%Q ->
     Player.rect r = Rect.set_top (Player.rect pl) (Rect.bottom (Platform.rect p)) /\
     Player.on_ground r = Player.on_ground pl) /\
  ((Player.vy pl == 0)%Q ->
     Player.rect r = Player.rect pl /\
     Player.on_ground r = Player.on_ground pl).
Proof.
  intros Hc r. subst r. unfold vertical_step. rewrite Hc.
  destruct (Num.ltb 0 (Player.vy pl)) eqn:E1.
  - apply ltb_lt in E1. split; [split; reflexivity|].
    split; [intros _; split; reflexivity|].
    split; intro H; exfalso.
    + exact (Qlt_irrefl _ (Qlt_trans _ _ _ E1 H)).
    + rewrite H in E1. exact (Qlt_irrefl _ E1).
  - apply ltb_ge in E1. destruct (Num.ltb (Player.vy pl) 0) eqn:E2.
    + apply ltb_lt in E2. split; [split; reflexivity|].
      split; [intro H; exfalso; exact (Qlt_not_le _ _ H E1)|].
      split; [intros _; split; reflexivity|].
      intro H. exfalso. rewrite H in E2. exact (Qlt_irrefl _ E2).
    + apply ltb_ge in E2. split; [split; reflexivity|].
      split; [intro H; exfalso; exact (Qlt_not_le _ _ H E1)|].
      split; [intro H; exfalso; exact (Qlt_not_le _ _ H E2)|].
      intros _. split; reflexivity.
Qed.

(** C3 (amended).  The vertical pass moves the box by the truncated
    vertical displacement and clears [on_ground]; if no platform overlaps
    the moved box, that is all.  Otherwise the first overlapping platform
    [p] in list order decides: falling, the box's bottom is on [p]'s top
    and [on_ground] is true; rising, the box's top is on [p]'s bottom;
    [vy] is zero and [y] is the box's [y].  The platforms after [p] change
    nothing, whether they overlap or not. *)
Theorem vertical_pass_first_overlap
  (pl : Player.t) (pre post : list Platform.t) (p : Platform.t) (dt : Q) :
  let moved := vertical_move pl dt in
  Player.rect moved =
    Rect.set_y (Player.rect pl)
      (Rect.y (Player.rect pl) + Num.py_int (Player.vy pl * dt)) /\
  Player.on_ground moved = false /\
  (overlaps moved pre = false -> vertical_pass pl pre dt = moved) /\
  (overlaps moved pre = false ->
   Rect.colliderect (Player.rect moved) (Platform.rect p) = true ->
   let r := vertical_pass pl (pre ++ p :: post) dt in
   r = vertical_step moved p /\
   Player.vy r = 0%Q /\
   Player.y r = inject_Z (Rect.y (Player.rect r)) /\
   ((0 < Player.vy pl)%Q ->
      Rect.bottom (Player.rect r) = Rect.top (Platform.rect p) /\
      Player.on_ground r = true) /\
   ((Player.vy pl < 0)%Q ->
      Rect.top (Player.rect r) = Rect.bottom (Platform.rect p) /\
      Player.on_ground r = false)).
Proof.
  intro moved. split; [reflexivity|]. split; [reflexivity|].
  split.
  - intro Hpre. unfold vertical_pass. apply vertical_loop_clear. exact Hpre.
  - intros Hpre Hp r.
    destruct (vertical_step_hit moved p Hp) as (Hs & Hfall & Hrise & _).
    assert (Hr : r = vertical_step moved p).
    { subst r. unfold vertical_pass. rewrite fold_left_app. fold moved.
      rewrite (vertical_loop_clear pre moved Hpre). cbn [fold_left].
      apply vertical_loop_settled. exact Hs. }
    split; [exact Hr|]. rewrite Hr.
    destruct Hs as [Hvy Hy]. split; [exact Hvy|]. split; [exact Hy|].
    split.
    + intro H. destruct (Hfall H) as [Hrect Hg]. split; [|exact Hg].
      rewrite Hrect. unfold Rect.bottom, Rect.set_bottom, Rect.set_y. cbn. lia.
    + intro H. destruct (Hrise H) as [Hrect Hg]. split.
      * rewrite Hrect. reflexivity.
      * rewrite Hg. reflexivity.
Qed.

Lemma vertical_pass_first_overlap_witness :
  let r := vertical_pass lander ([] ++ step_lower :: [step_upper]) (1 # 60) in
  overlaps (vertical_move lander (1 # 60)) [] = false /\
  Rect.colliderect (Player.rect (vertical_move lander (1 # 60)))
    (Platform.rect step_lower) = true /\
  Player.vy r = 0%Q /\
  Rect.bottom (Player.rect r) = 160 /\
  Player.on_ground r = true.
Proof.
  split; [reflexivity|]. split; [reflexivity|].
  destruct (vertical_pass_first_overlap lander [] [step_upper] step_lower (1 # 60))
    as (_ & _ & _ & H).
  destruct (H eq_refl eq_refl) as (_ & Hvy & _ & Hfall & _).
  split; [exact Hvy|]. apply Hfall. reflexivity.
Defined.

(** C3 (as stated) fails: both platforms overlap the moved box, also the
    snapped one, and the Body is falling, yet the box ends on the top of
    the first platform in list order (160), not of the last (155). *)
Lemma vertical_pass_last_overlap_counterexample :
  let ps := [step_lower; step_upper] in
  let moved := vertical_move lander (1 # 60) in
  let r := vertical_pass lander ps (1 # 60) in
  (0 < Player.vy lander)%Q /\
  Rect.colliderect (Player.rect moved) (Platform.rect step_lower) = true /\
  Rect.colliderect (Player.rect moved) (Platform.rect step_upper) = true /\
  Rect.colliderect (Player.rect r) (Platform.rect step_upper) = true /\
  Rect.bottom (Player.rect r) = Rect.top (Platform.rect step_lower) /\
  Rect.bottom (Player.rect r) <> Rect.top (Platform.rect step_upper).
Proof.
  cbv zeta. repeat split. vm_compute. discriminate.
Qed.

(** ** The resting Body *)

(** C2 (the code at the failing input).  The Body rests on the ground of
    a fresh World.  One tick with no input and [dt = 1/60] truncates the
    displacement [vy*dt = 5/9] to 0, the box only touches the ground, and
    touching is no overlap: [on_ground] is false and [vy] is [100/3].  The
    next tick moves the box by one unit and lands again. *)
Theorem resting_tick_leaves_ground :
  let ps := World.platforms World.init in
  let r1 := body_tick rester no_keys ps (1 # 60) in
  let r2 := body_tick r1 no_keys ps (1 # 60) in
  ps = [ground] /\
  Rect.bottom (Player.rect rester) = Rect.top (Platform.rect ground) /\
  Player.on_ground rester = true /\ Player.vy rester = 0%Q /\
  Num.py_int (Player.vy (Player.physics rester (1 # 60)) * (1 # 60)) = 0 /\
  Player.on_ground r1 = false /\ (Player.vy r1 == 100 # 3)%Q /\
  Player.rect r1 = Player.rect rester /\
  Player.on_ground r2 = true /\ Player.vy r2 = 0%Q.
Proof.
  cbv zeta. repeat split.
Qed.

(** ** World.update and temporary platforms *)

Lemma update_platform_untouched (dt : Q) (pl : Player.t) (p : Platform.t) :
  Platform.activated p = false ->
  Rect.colliderect (Player.rect pl) (Platform.rect p) = false ->
  World.update_platform dt pl p = p /\ World.survives p = true.
Proof.
  intros Ha Hc. unfold World.update_platform, World.survives.
  rewrite Hc, Ha. rewrite andb_false_r. cbn [andb negb].
  destruct (Platform.temporary p); auto.
Qed.

(** A platform that has not been activated and is not overlapped stays
    in the World as it is: its timer does not move. *)
Lemma update_keeps_untouched (wd : World.t) (dt : Q) (pl : Player.t) (p : Platform.t) :
  In p (World.platforms wd) ->
  Platform.activated p = false ->
  Rect.colliderect (Player.rect pl) (Platform.rect p) = false ->
  In p (World.platforms (World.update wd dt pl)).
Proof.
  intros Hin Ha Hc. unfold World.update. cbn [World.platforms].
  destruct (update_platform_untouched dt pl p Ha Hc) as [Hu Hs].
  apply filter_In. split; [|exact Hs].
  apply in_map_iff. exists p. split; assumption.
Qed.

(** The first half of the life cycle: under any sequence of updates in
    which the box never overlaps it, a fresh platform stays in the World
    with the timer and the flag [Platform.__init__] gave it. *)
Lemma untouched_timer_frozen (calls : list (Q * Player.t))
  (wd : World.t) (p : Platform.t) :
  In p (World.platforms wd) ->
  Platform.activated p = false ->
  Forall (untouched p) calls ->
  In p (World.platforms (updates wd calls)).
Proof.
  revert wd. induction calls as [|c calls IH]; intros wd Hin Ha Hall; [exact Hin|].
  inversion Hall as [|c' calls' Hc Hrest]; subst.
  unfold updates. cbn [fold_left]. apply IH; [|exact Ha|exact Hrest].
  apply update_keeps_untouched; assumption.
Qed.

(** The second half, on the timer: an activated temporary platform is
    dropped by the update exactly when its timer, after the addition of
    [dt], has reached the lifetime. *)
Lemma activated_removed_iff (dt : Q) (pl : Player.t) (p : Platform.t) :
  Platform.temporary p = true ->
  Platform.activated p = true ->
  let p' := World.update_platform dt pl p in
  (Platform.timer p' == Platform.timer p + dt)%Q /\
  (World.survives p' = false <-> (TEMP_PLATFORM_LIFETIME <= Platform.timer p')%Q).
Proof.
  intros Ht Ha p'. subst p'. unfold World.update_platform. rewrite Ht.
  assert (E : Platform.activated
            (if Rect.colliderect (Player.rect pl) (Platform.rect p)
             then Platform.set_activated p true else p) = true).
  { destruct (Rect.colliderect _ _); [reflexivity | exact Ha]. }
  rewrite E. split.
  - destruct (Rect.colliderect _ _); reflexivity.
  - unfold World.survives.
    cbn [Platform.temporary Platform.activated Platform.timer Platform.set_timer].
    rewrite E.
    assert (Et : Platform.temporary
              (if Rect.colliderect (Player.rect pl) (Platform.rect p)
               then Platform.set_activated p true else p) = true).
    { destruct (Rect.colliderect _ _); exact Ht. }
    rewrite Et. cbn [andb]. rewrite negb_false_iff. apply geb_le.
Qed.

(** C1 (the code at the failing input).  A temporary platform starts
    with [timer = 2.0].  Activated by the first of three updates of one
    second each, it is still there after two seconds (timer 4) and is
    removed by the third: three seconds after activation, not five. *)
Theorem temporary_platform_removed_early :
  let w1 := World.update bridge_world 1 stander in
  let w2 := World.update w1 1 stander in
  let w3 := World.update w2 1 stander in
  Platform.timer bridge = 2%Q /\ Platform.activated bridge = false /\
  Rect.colliderect (Player.rect stander) (Platform.rect bridge) = true /\
  map Platform.activated (World.platforms w1) = [true] /\
  map Platform.timer (World.platforms w1) = [3%Q] /\
  map Platform.timer (World.platforms w2) = [4%Q] /\
  World.platforms w3 = [] /\
  (1 + 1 + 1 < TEMP_PLATFORM_LIFETIME)%Q.
Proof.
  cbv zeta. repeat split.
Qed.

(** ** World.generate_until *)

Lemma randint_range (a b : Z) (g : Random.t) :
  a <= b -> a <= fst (Random.randint a b g) <= b.
Proof.
  intro H. unfold Random.randint. cbn [fst].
  pose proof (Z.mod_pos_bound (Random.raw g (Random.pos g)) (b - a + 1)) as M.
  lia.
Qed.

Lemma strip_last (ps : list Platform.t) (f : Z) :
  strip ps f ->
  exists l p, ps = l ++ [p] /\ f = Platform.x p + Platform.w p.
Proof.
  intro H. destruct H as [p Hw | ps f p Hs Hg Hw].
  - exists [], p. split; reflexivity.
  - exists ps, p. split; reflexivity.
Qed.

Lemma strip_bound (ps : list Platform.t) (f : Z) :
  strip ps f ->
  Forall (fun q => 0 < Platform.w q /\ Platform.x q + Platform.w q <= f) ps.
Proof.
  induction 1 as [p Hw | ps f p Hs IH Hg Hw].
  - constructor; [lia | constructor].
  - apply Forall_app. split.
    + eapply Forall_impl; [|exact IH]. cbn beta. intros q [Hq1 Hq2].
      unfold PLATFORM_MIN_GAP in Hg. lia.
    + constructor; [lia | constructor].
Qed.

Lemma StronglySorted_snoc {A : Type} (R : A -> A -> Prop) (l : list A) (a : A) :
  StronglySorted R l -> Forall (fun b => R b a) l -> StronglySorted R (l ++ [a]).
Proof.
  induction 1 as [|b l Hs IH Hb]; intro Hall; cbn [app].
  - constructor; constructor.
  - inversion Hall as [|b' l' Hba Hla]; subst. constructor.
    + apply IH. exact Hla.
    + apply Forall_app. split; [exact Hb | constructor; [exact Hba | constructor]].
Qed.

Lemma strip_sorted (ps : list Platform.t) (f : Z) :
  strip ps f -> StronglySorted x_before ps.
Proof.
  induction 1 as [p Hw | ps f p Hs IH Hg Hw].
  - constructor; constructor.
  - apply StronglySorted_snoc; [exact IH|].
    eapply Forall_impl; [|exact (strip_bound ps f Hs)]. cbn beta.
    intros q [Hq1 Hq2]. unfold x_before, PLATFORM_MIN_GAP in *. lia.
Qed.

(** Two neighbours in a list that ends with [a]. *)
Lemma neighbours_snoc {A : Type} (l l1 l2 : list A) (a p q : A) :
  l ++ [a] = l1 ++ p :: q :: l2 ->
  (l2 = [] /\ q = a /\ l = l1 ++ [p]) \/
  (exists l2', l2 = l2' ++ [a] /\ l = l1 ++ p :: q :: l2').
Proof.
  intro E. destruct l2 as [|c l2].
  - left.
    replace (l1 ++ [p; q]) with ((l1 ++ [p]) ++ [q]) in E
      by (rewrite <- app_assoc; reflexivity).
    apply app_inj_tail in E. destruct E as [E1 E2]. auto.
  - right. destruct (@exists_last _ (c :: l2)) as (l2' & a' & E2); [discriminate|].
    rewrite E2 in *.
    replace (l1 ++ p :: q :: l2' ++ [a']) with ((l1 ++ p :: q :: l2') ++ [a']) in E
      by (rewrite <- app_assoc; reflexivity).
    apply app_inj_tail in E. destruct E as [E1 E3]. subst.
    exists l2'. auto.
Qed.

Lemma strip_gaps (ps : list Platform.t) (f : Z) :
  strip ps f ->
  forall l1 p q l2, ps = l1 ++ p :: q :: l2 ->
    Platform.x p + Platform.w p + PLATFORM_MIN_GAP <= Platform.x q.
Proof.
  induction 1 as [p0 Hw | ps f p0 Hs IH Hg Hw]; intros l1 p q l2 E.
  - destruct l1 as [|a [|b l1]]; discriminate E.
  - destruct (neighbours_snoc _ _ _ _ _ _ E) as [(-> & -> & El) | (l2' & -> & El)].
    + destruct (strip_last ps f Hs) as (l & p' & El' & Ef).
      rewrite El in El'. apply app_inj_tail in El'. destruct El' as [_ <-].
      lia.
    + exact (IH l1 p q l2' El).
Qed.

Lemma init_generated : generated World.init.
Proof. apply (strip_first ground). reflexivity. Qed.

(** What one iteration appends. *)
Lemma generate_one_spec (wd : World.t) (g : Random.t) :
  exists p,
    World.platforms (fst (World.generate_one wd g)) = World.platforms wd ++ [p] /\
    World.max_x (fst (World.generate_one wd g)) = Platform.x p + Platform.w p /\
    World.max_x wd + PLATFORM_MIN_GAP <= Platform.x p <= World.max_x wd + PLATFORM_MAX_GAP /\
    PLATFORM_MIN_WIDTH <= Platform.w p <= PLATFORM_MAX_WIDTH /\
    PLATFORM_MIN_Y <= Platform.y p <= PLATFORM_MAX_Y /\
    Platform.h p = 20 /\
    Platform.activated p = false.
Proof.
  unfold World.generate_one.
  pose proof (randint_range PLATFORM_MIN_WIDTH PLATFORM_MAX_WIDTH g) as Hw.
  destruct (Random.randint PLATFORM_MIN_WIDTH PLATFORM_MAX_WIDTH g) as [width g1].
  pose proof (randint_range PLATFORM_MIN_GAP PLATFORM_MAX_GAP g1) as Hg.
  destruct (Random.randint PLATFORM_MIN_GAP PLATFORM_MAX_GAP g1) as [gap g2].
  destruct (Random.randint (-120) 120 g2) as [dy g3].
  destruct (Random.random g3) as [u g4].
  cbn [fst] in *. eexists. split; [reflexivity|].
  cbn [World.max_x World.platforms Platform.x Platform.w Platform.y Platform.h
       Platform.activated Platform.init].
  split; [reflexivity|].
  unfold PLATFORM_MIN_WIDTH, PLATFORM_MAX_WIDTH, PLATFORM_MIN_GAP, PLATFORM_MAX_GAP,
    PLATFORM_MIN_Y, PLATFORM_MAX_Y, SCREEN_HEIGHT in *.
  specialize (Hw ltac:(lia)). specialize (Hg ltac:(lia)).
  split; [lia|]. split; [lia|]. split; [|split; reflexivity].
  unfold Num.py_maxZ, Num.py_minZ.
  change (560 - 60) with 500.
  destruct (Z.ltb_spec (World.get_last_y wd + dy) 500);
    match goal with |- context [120 <? ?v] => destruct (Z.ltb_spec 120 v) end; lia.
Qed.

Lemma generate_one_generated (wd : World.t) (g : Random.t) :
  generated wd -> generated (fst (World.generate_one wd g)).
Proof.
  intro H. destruct (generate_one_spec wd g) as (p & Hp & Hm & Hx & Hw & _).
  unfold generated. rewrite Hp, Hm.
  apply (strip_next _ (World.max_x wd)); [exact H | lia |].
  unfold PLATFORM_MIN_WIDTH in Hw. lia.
Qed.

Lemma generate_loop_generated (fuel : nat) (wd : World.t) (limit_x : Q) (g : Random.t) :
  generated wd -> generated (fst (World.generate_loop fuel wd limit_x g)).
Proof.
  revert wd g. induction fuel as [|k IH]; intros wd g H; [exact H|].
  cbn [World.generate_loop].
  destruct (Num.ltb (inject_Z (World.max_x wd)) limit_x); [|exact H].
  pose proof (generate_one_generated wd g H) as H1.
  destruct (World.generate_one wd g) as [wd' g']. apply IH. exact H1.
Qed.

Lemma generate_until_generated (wd : World.t) (limit_x : Q) (g : Random.t) :
  generated wd -> generated (fst (World.generate_until wd limit_x g)).
Proof. apply generate_loop_generated. Qed.

Lemma generate_calls_generated (limits : list Q) (wd : World.t) (g : Random.t) :
  generated wd -> generated (fst (generate_calls wd limits g)).
Proof.
  revert wd g. induction limits as [|l limits IH]; intros wd g H; [exact H|].
  cbn [generate_calls].
  pose proof (generate_until_generated wd l g H) as H1.
  destruct (World.generate_until wd l g) as [wd' g']. apply IH. exact H1.
Qed.

(** C5.  Generation invariant: after any sequence of [generate_until]
    calls on a fresh World, whatever the random source draws, the
    platforms are strictly ordered by [x]; each platform starts at least
    the minimum gap (60) past the right edge of its predecessor, the
    frontier at the time it was generated; and [max_x] is the right edge
    [x + w] of the last platform. *)
Theorem generation_invariant (limits : list Q) (g : Random.t) :
  let wd := fst (generate_calls World.init limits g) in
  StronglySorted x_before (World.platforms wd) /\
  (forall l1 p q l2, World.platforms wd = l1 ++ p :: q :: l2 ->
     Platform.x p + Platform.w p + PLATFORM_MIN_GAP <= Platform.x q) /\
  (exists l p, World.platforms wd = l ++ [p] /\
     World.max_x wd = Platform.x p + Platform.w p).
Proof.
  intro wd.
  assert (H : generated wd) by (apply generate_calls_generated, init_generated).
  split; [exact (strip_sorted _ _ H)|].
  split; [exact (strip_gaps _ _ H) | exact (strip_last _ _ H)].
Qed.

(** *** Termination of the loop *)

Lemma generate_one_advances (wd : World.t) (g : Random.t) :
  World.max_x wd + 1 <= World.max_x (fst (World.generate_one wd g)).
Proof.
  destruct (generate_one_spec wd g) as (p & _ & Hm & Hx & Hw & _).
  unfold PLATFORM_MIN_GAP, PLATFORM_MIN_WIDTH in *. lia.
Qed.

Lemma below_limit_ceiling (m : Z) (limit_x : Q) :
  (inject_Z m < limit_x)%Q -> m + 1 <= Qceiling limit_x.
Proof.
  intro H. pose proof (Qle_ceiling limit_x) as Hc.
  assert (L : (inject_Z m < inject_Z (Qceiling limit_x))%Q)
    by (eapply Qlt_le_trans; eassumption).
  rewrite <- Zlt_Qlt in L. lia.
Qed.

(** With fuel for the distance to the limit, the loop stops because its
    condition fails, not because the fuel ran out. *)
Lemma generate_loop_reaches (fuel : nat) (wd : World.t) (limit_x : Q) (g : Random.t) :
  Qceiling limit_x - World.max_x wd <= Z.of_nat fuel ->
  (limit_x <= inject_Z (World.max_x (fst (World.generate_loop fuel wd limit_x g))))%Q.
Proof.
  revert wd g. induction fuel as [|k IH]; intros wd g Hf.
  - cbn [World.generate_loop fst].
    apply Qle_trans with (inject_Z (Qceiling limit_x)); [apply Qle_ceiling|].
    rewrite <- Zle_Qle. lia.
  - cbn [World.generate_loop].
    destruct (Num.ltb (inject_Z (World.max_x wd)) limit_x) eqn:E.
    + apply ltb_lt in E. apply below_limit_ceiling in E.
      pose proof (generate_one_advances wd g) as Ha.
      destruct (World.generate_one wd g) as [wd' g']. cbn [fst] in Ha.
      apply IH. lia.
    + apply ltb_ge in E. exact E.
Qed.

(** [generate_until] returns with the frontier at or past the limit. *)
Lemma generate_until_reaches (wd : World.t) (limit_x : Q) (g : Random.t) :
  (limit_x <= inject_Z (World.max_x (fst (World.generate_until wd limit_x g))))%Q.
Proof.
  apply generate_loop_reaches. unfold World.generate_fuel. lia.
Qed.

(** More fuel changes nothing. *)
Lemma generate_loop_enough (k fuel : nat) (wd : World.t) (limit_x : Q) (g : Random.t) :
  Qceiling limit_x - World.max_x wd <= Z.of_nat fuel ->
  World.generate_loop (fuel + k) wd limit_x g = World.generate_loop fuel wd limit_x g.
Proof.
  revert wd g. induction fuel as [|n IH]; intros wd g Hf.
  - cbn [Nat.add]. destruct k as [|k]; [reflexivity|].
    cbn [World.generate_loop].
    destruct (Num.ltb (inject_Z (World.max_x wd)) limit_x) eqn:E; [|reflexivity].
    apply ltb_lt in E. apply below_limit_ceiling in E. lia.
  - cbn [Nat.add World.generate_loop].
    destruct (Num.ltb (inject_Z (World.max_x wd)) limit_x) eqn:E; [|reflexivity].
    apply ltb_lt in E. apply below_limit_ceiling in E.
    pose proof (generate_one_advances wd g) as Ha.
    destruct (World.generate_one wd g) as [wd' g']. cbn [fst] in Ha.
    apply IH. lia.
Qed.

(** ** The score *)

(** Events never open the menu. *)
Lemma handle_event_alive (st : Game.t) (ev : Event) :
  Game.in_menu st = false -> Game.in_menu (Game.handle_event st ev) = false.
Proof.
  intro H. destruct ev as [|k|]; cbn [Game.handle_event].
  - exact H.
  - destruct (is_escape k); cbn [Game.in_menu Game.stop]; rewrite H; exact H.
  - exact H.
Qed.

(** An event after which the menu is still open has changed neither the
    score nor the round. *)
Lemma handle_event_menu (st : Game.t) (ev : Event) :
  Game.in_menu (Game.handle_event st ev) = true ->
  Game.in_menu st = true /\
  Game.score (Game.handle_event st ev) = Game.score st /\
  Game.player (Game.handle_event st ev) = Game.player st /\
  Game.world (Game.handle_event st ev) = Game.world st.
Proof.
  destruct ev as [|k|]; cbn [Game.handle_event].
  - cbn. auto.
  - destruct (Game.in_menu st) eqn:E; destruct k; cbn; rewrite ?E; cbn;
      intro H; try discriminate H; try congruence; auto.
  - auto.
Qed.

Lemma handle_events_menu (evs : list Event) (st : Game.t) :
  Game.in_menu (fold_left Game.handle_event evs st) = true ->
  Game.in_menu st = true /\
  Game.score (fold_left Game.handle_event evs st) = Game.score st /\
  Game.player (fold_left Game.handle_event evs st) = Game.player st /\
  Game.world (fold_left Game.handle_event evs st) = Game.world st.
Proof.
  revert st. induction evs as [|ev evs IH]; intros st H; [auto|].
  cbn [fold_left] in *. destruct (IH _ H) as (Hm & Hs & Hp & Hw).
  destruct (handle_event_menu st ev Hm) as (Hm' & Hs' & Hp' & Hw').
  rewrite Hs, Hp, Hw. auto.
Qed.

(** Without a SPACE key press the menu stays open. *)
Lemma handle_events_no_space (evs : list Event) (st : Game.t) :
  Game.in_menu st = true ->
  Forall (fun ev => ev <> KEYDOWN KEY_SPACE) evs ->
  Game.in_menu (fold_left Game.handle_event evs st) = true.
Proof.
  revert st. induction evs as [|ev evs IH]; intros st Hm Hall; [exact Hm|].
  inversion Hall as [|ev' evs' Hev Hrest]; subst.
  cbn [fold_left]. apply IH; [|exact Hrest].
  destruct ev as [|k|]; cbn [Game.handle_event].
  - exact Hm.
  - destruct k; [| exfalso; apply Hev; reflexivity |];
      cbn; rewrite ?Hm; cbn; rewrite ?Hm; reflexivity.
  - exact Hm.
Qed.

(** What a tick leaves in the score, the player and the menu flag. *)
Lemma tick_score (st : Game.t) (dt : Q) (keys : Keys) :
  let st' := Game.tick st dt keys in
  Game.score st' = Qfloor (Player.x (Game.player st') / 10) /\
  Game.in_menu st' = (if death_check (Game.player st') then true else Game.in_menu st) /\
  Game.highscore st' =
    (if death_check (Game.player st')
     then Num.py_maxZ (Game.highscore st) (Game.score st') else Game.highscore st).
Proof.
  unfold Game.tick.
  destruct (World.generate_until _ _ _) as [wd1 g1].
  cbn. repeat split.
Qed.

(** C9.  Score law.  In an iteration of the main loop that runs a tick
    (the menu is closed once the events are handled: the player is
    alive), the score drawn is [floor(x / 10)] for the Body's [x] after
    the tick, and the menu opens exactly if the death check fires.  In
    an iteration that starts in the menu and sees no SPACE key press, the
    score, the player and the world stay as they were at death.  The
    SPACE key press in the menu builds a new round with score zero. *)
Theorem score_law (st : Game.t) (i : Game.Input) :
  let st1 := fold_left Game.handle_event (Game.events i) st in
  let st' := Game.frame st i in
  (Game.in_menu st1 = false ->
     Game.displayed_score st' = Qfloor (Player.x (Game.player st') / 10) /\
     Game.in_menu st' = death_check (Game.player st')) /\
  (Game.in_menu st = true ->
   Forall (fun ev => ev <> KEYDOWN KEY_SPACE) (Game.events i) ->
     Game.in_menu st' = true /\
     Game.displayed_score st' = Game.displayed_score st /\
     Game.player st' = Game.player st /\
     Game.world st' = Game.world st) /\
  (Game.in_menu st = true ->
     let r := Game.handle_event st (KEYDOWN KEY_SPACE) in
     Game.in_menu r = false /\ Game.score r = 0 /\
     Game.player r = Player.init 120 (SCREEN_HEIGHT - 180) /\
     Game.world r = World.init /\
     Game.camera_x r = 0%Q).
Proof.
  intros st1 st'. split; [|split].
  - intro H. subst st'. unfold Game.frame. fold st1. rewrite H. cbn [negb].
    destruct (tick_score st1 (Game.dt i) (Game.keys i)) as (Hs & Hm & _).
    split; [exact Hs|]. rewrite Hm, H.
    destruct (death_check _); reflexivity.
  - intros Hm Hall.
    pose proof (handle_events_no_space (Game.events i) st Hm Hall) as H1.
    fold st1 in H1.
    destruct (handle_events_menu (Game.events i) st H1) as (_ & Hs & Hp & Hw).
    subst st'. unfold Game.frame. fold st1 in Hs, Hp, Hw |- *.
    rewrite H1. cbn [negb]. auto.
  - intros Hm r. subst r. cbn [Game.handle_event is_escape is_space].
    rewrite Hm. cbn. repeat split.
Qed.

(** Between rounds: from the tick that detects death until the restart,
    the score is still [floor(x / 10)] of the Body as it died. *)
Lemma frame_score_matches (st : Game.t) (i : Game.Input) :
  (Game.in_menu st = true ->
   Game.score st = Qfloor (Player.x (Game.player st) / 10)) ->
  Game.score (Game.frame st i) =
    Qfloor (Player.x (Game.player (Game.frame st i)) / 10).
Proof.
  intro Inv. unfold Game.frame.
  destruct (Game.in_menu (fold_left Game.handle_event (Game.events i) st)) eqn:E;
    cbn [negb].
  - destruct (handle_events_menu _ _ E) as (Hm & Hs & Hp & _).
    rewrite Hs, Hp. apply Inv. exact Hm.
  - apply tick_score.
Qed.

Lemma score_law_witness :
  Game.in_menu (fold_left Game.handle_event (Game.events idle) (Game.init seeds)) = false /\
  Game.displayed_score (Game.frame (Game.init seeds) idle) = 12 /\
  Game.in_menu fallen = true /\
  Game.displayed_score (Game.frame fallen idle) = 57 /\
  Game.score (Game.handle_event fallen (KEYDOWN KEY_SPACE)) = 0.
Proof.
  destruct (score_law (Game.init seeds) idle) as (Halive & _ & _).
  destruct (score_law fallen idle) as (_ & Hmenu & Hreset).
  split; [reflexivity|]. split.
  - destruct (Halive eq_refl) as [Hs _]. rewrite Hs. vm_compute. reflexivity.
  - split; [reflexivity|]. split.
    + destruct (Hmenu eq_refl (Forall_nil _)) as (_ & Hs & _). exact Hs.
    + destruct (Hreset eq_refl) as (_ & Hs & _). exact Hs.
Defined.

(** The same along a run of the loop, from any state in which it holds. *)
Lemma run_score_matches (inputs : list Game.Input) (st : Game.t) :
  (Game.in_menu st = true ->
   Game.score st = Qfloor (Player.x (Game.player st) / 10)) ->
  Game.in_menu (Game.run st inputs) = true ->
  Game.score (Game.run st inputs) =
    Qfloor (Player.x (Game.player (Game.run st inputs)) / 10).
Proof.
  revert st. induction inputs as [|i inputs IH]; intros st Inv; cbn [Game.run].
  - exact Inv.
  - destruct (Game.running st); [|exact Inv].
    apply IH. intros _. apply frame_score_matches. exact Inv.
Qed.

(** * Further properties of the code *)

(** ** Player.jump and Player.apply_input *)

(** X1.  [jump] only acts from the ground: it stores [-JUMP_VELOCITY]
    in [vy] exactly when [on_ground] was set, always leaves [on_ground]
    cleared, never touches the position, [vx] or the box, and a second
    call right after the first changes nothing (no double jump). *)
Theorem jump_once (pl : Player.t) :
  Player.vy (Player.jump pl) =
    (if Player.on_ground pl then (- PLAYER_JUMP_VELOCITY)%Q else Player.vy pl) /\
  Player.on_ground (Player.jump pl) = false /\
  Player.x (Player.jump pl) = Player.x pl /\
  Player.y (Player.jump pl) = Player.y pl /\
  Player.vx (Player.jump pl) = Player.vx pl /\
  Player.rect (Player.jump pl) = Player.rect pl /\
  Player.jump (Player.jump pl) = Player.jump pl.
Proof.
  unfold Player.jump. destruct (Player.on_ground pl) eqn:E.
  - cbn. repeat split.
  - rewrite ?E; repeat split; auto.
Qed.

Lemma target_vx_bounded (keys : Keys) :
  (- PLAYER_SPEED <= Player.target_vx keys <= PLAYER_SPEED)%Q.
Proof.
  rewrite target_vx_cases. cbv zeta.
  destruct (K_LEFT keys || K_a keys), (K_RIGHT keys || K_d keys);
    split; discriminate.
Qed.

(** The velocity after [apply_input] is between the old velocity and the
    target computed by the code. *)
Lemma apply_input_between (pl : Player.t) (keys : Keys) (dt : Q) :
  (0 <= dt)%Q ->
  let t := Player.target_vx keys in
  let v := Player.vx pl in
  let v' := Player.vx (Player.apply_input pl keys dt) in
  (v <= v' /\ v' <= t)%Q \/ (t <= v' /\ v' <= v)%Q.
Proof.
  intros Hdt t v v'. subst v'. unfold Player.apply_input. cbn zeta.
  fold t. fold v.
  destruct (Num.ltb v t) eqn:E1.
  - apply ltb_lt in E1. left. cbn [Player.vx Player.set_vx]. split.
    + apply py_min_glb; lra.
    + apply py_min_le_r.
  - apply ltb_ge in E1. destruct (Num.ltb t v) eqn:E2.
    + apply ltb_lt in E2. right. cbn [Player.vx Player.set_vx]. split.
      * apply py_max_ge_r.
      * apply py_max_lub; lra.
    + apply ltb_ge in E2. fold v. left. split; lra.
Qed.

(** X2.  Speed limit: for [dt >= 0], a Body whose horizontal speed is
    within [PLAYER_SPEED] keeps it there through [apply_input], whatever
    keys are pressed. *)
Theorem apply_input_speed_limit (pl : Player.t) (keys : Keys) (dt : Q) :
  (0 <= dt)%Q ->
  (- PLAYER_SPEED <= Player.vx pl <= PLAYER_SPEED)%Q ->
  (- PLAYER_SPEED <= Player.vx (Player.apply_input pl keys dt) <= PLAYER_SPEED)%Q.
Proof.
  intros Hdt Hv.
  pose proof (target_vx_bounded keys) as Ht.
  destruct (apply_input_between pl keys dt Hdt) as [[H1 H2] | [H1 H2]];
    split; lra.
Qed.

Lemma apply_input_speed_limit_witness :
  (- PLAYER_SPEED <=
     Player.vx (Player.apply_input faller (mkKeys true false false false false false false) (1 # 60))
   <= PLAYER_SPEED)%Q.
Proof.
  apply apply_input_speed_limit.
  - discriminate.
  - split; discriminate.
Defined.

(** X3.  Arrival: when the step [2000*dt] covers the distance to the
    target, [apply_input] lands on the target itself: the velocity does
    not oscillate around it. *)
Theorem apply_input_arrives (pl : Player.t) (keys : Keys) (dt : Q) :
  let t := Player.target_vx keys in
  (t - Player.vx pl <= 2000 * dt)%Q ->
  (Player.vx pl - t <= 2000 * dt)%Q ->
  (Player.vx (Player.apply_input pl keys dt) == t)%Q.
Proof.
  intros t H1 H2. unfold Player.apply_input. cbn zeta. fold t.
  destruct (Num.ltb (Player.vx pl) t) eqn:E1.
  - cbn [Player.vx Player.set_vx]. unfold Num.py_min.
    destruct (Num.ltb t (Player.vx pl + 2000 * dt)) eqn:E; [reflexivity|].
    apply ltb_ge in E. lra.
  - apply ltb_ge in E1. destruct (Num.ltb t (Player.vx pl)) eqn:E2.
    + cbn [Player.vx Player.set_vx]. unfold Num.py_max.
      destruct (Num.ltb (Player.vx pl - 2000 * dt) t) eqn:E; [reflexivity|].
      apply ltb_ge in E. lra.
    + apply ltb_ge in E2. lra.
Qed.

Lemma apply_input_arrives_witness :
  (Player.vx (Player.apply_input runner no_keys (1 # 2)) == 0)%Q.
Proof.
  apply (apply_input_arrives runner no_keys (1 # 2)); discriminate.
Defined.

(** ** More on resolve_collisions *)

Lemma vertical_step_inv (v0 : Q) (r0 : Rect.t) (pl : Player.t) (p : Platform.t) :
  vertical_inv v0 r0 pl -> vertical_inv v0 r0 (vertical_step pl p).
Proof.
  intros (Hv & Hw & Hh & Hg). unfold vertical_step.
  destruct (Rect.colliderect _ _); [|repeat split; tauto].
  destruct (Num.ltb 0 (Player.vy pl)) eqn:E1.
  - apply ltb_lt in E1. unfold vertical_inv. cbn. repeat split; auto.
    destruct Hv as [Hv | Hv]; rewrite Hv in E1; [exact E1 | discriminate E1].
  - destruct (Num.ltb (Player.vy pl) 0) eqn:E2; unfold vertical_inv; cbn.
    + repeat split; auto. apply Hg. assumption.
    + repeat split; auto. apply Hg. assumption.
Qed.

Lemma vertical_loop_inv (v0 : Q) (r0 : Rect.t) (ps : list Platform.t) (pl : Player.t) :
  vertical_inv v0 r0 pl -> vertical_inv v0 r0 (fold_left vertical_step ps pl).
Proof.
  revert pl. induction ps as [|p ps IH]; intros pl H; [exact H|].
  cbn [fold_left]. apply IH. apply vertical_step_inv. exact H.
Qed.

Lemma vertical_pass_inv (pl : Player.t) (ps : list Platform.t) (dt : Q) :
  vertical_inv (Player.vy pl) (Player.rect pl) (vertical_pass pl ps dt).
Proof.
  unfold vertical_pass. apply vertical_loop_inv.
  unfold vertical_inv, vertical_move. cbn. repeat split; auto; discriminate.
Qed.

(** The second pass, in closed form. *)
Lemma horizontal_pass_closed (pl : Player.t) (ps : list Platform.t) (dt : Q) :
  horizontal_pass pl ps dt =
    if overlaps (horizontal_move pl dt) ps
    then Player.set_y (horizontal_move pl dt) (inject_Z (SCREEN_HEIGHT + 1000))
    else horizontal_move pl dt.
Proof. unfold horizontal_pass. apply horizontal_loop. Qed.

Lemma horizontal_pass_keeps (pl : Player.t) (ps : list Platform.t) (dt : Q) :
  let r := horizontal_pass pl ps dt in
  Player.x r = Player.x pl /\ Player.vx r = Player.vx pl /\
  Player.vy r = Player.vy pl /\ Player.on_ground r = Player.on_ground pl /\
  Player.w r = Player.w pl /\ Player.h r = Player.h pl /\
  Player.rect r =
    Rect.set_x (Player.rect pl)
      (Rect.x (Player.rect pl) + Num.py_int (Player.vx pl * dt)).
Proof.
  cbv zeta. rewrite horizontal_pass_closed.
  destruct (overlaps _ _); cbn; repeat split.
Qed.

(** X4.  What [resolve_collisions] never does, whatever the platforms:
    it leaves [x], [vx] and the sizes alone, moves the box horizontally
    by exactly the truncated displacement (no push-back), and reports
    [on_ground] only for a Body that came in falling and whose [vy] it
    has zeroed. *)
Theorem resolve_collisions_keeps (pl : Player.t) (ps : list Platform.t) (dt : Q) :
  let r := resolve_collisions pl ps dt in
  Player.x r = Player.x pl /\ Player.vx r = Player.vx pl /\
  Player.w r = Player.w pl /\ Player.h r = Player.h pl /\
  Rect.w (Player.rect r) = Rect.w (Player.rect pl) /\
  Rect.h (Player.rect r) = Rect.h (Player.rect pl) /\
  Rect.x (Player.rect r) = Rect.x (Player.rect pl) + Num.py_int (Player.vx pl * dt) /\
  (Player.on_ground r = true -> Player.vy r = 0%Q /\ (0 < Player.vy pl)%Q).
Proof.
  intro r. subst r. unfold resolve_collisions.
  destruct (horizontal_pass_keeps (vertical_pass pl ps dt) ps dt)
    as (Hx & Hvx & Hvy & Hg & Hw & Hh & Hr).
  destruct (vertical_pass_x_vx pl ps dt) as (Vx & Vvx & Vrx).
  destruct (vertical_pass_inv pl ps dt) as (_ & Iw & Ih & Ig).
  rewrite Hx, Hvx, Hvy, Hg, Hw, Hh, Hr. cbn [Rect.w Rect.h Rect.x Rect.set_x].
  rewrite Vx, Vvx, Vrx, Iw, Ih.
  repeat split; try (apply Ig; assumption).
  - clear. unfold vertical_pass.
    assert (G : forall l q, Player.w (fold_left vertical_step l q) = Player.w q).
    { induction l as [|a l IH]; intro q; [reflexivity|]. cbn [fold_left].
      rewrite IH. unfold vertical_step.
      destruct (Rect.colliderect _ _); [|reflexivity].
      destruct (Num.ltb 0 (Player.vy q)); [reflexivity|].
      destruct (Num.ltb (Player.vy q) 0); reflexivity. }
    rewrite G. reflexivity.
  - clear. unfold vertical_pass.
    assert (G : forall l q, Player.h (fold_left vertical_step l q) = Player.h q).
    { induction l as [|a l IH]; intro q; [reflexivity|]. cbn [fold_left].
      rewrite IH. unfold vertical_step.
      destruct (Rect.colliderect _ _); [|reflexivity].
      destruct (Num.ltb 0 (Player.vy q)); [reflexivity|].
      destruct (Num.ltb (Player.vy q) 0); reflexivity. }
    rewrite G. reflexivity.
Qed.

Lemma resolve_collisions_keeps_witness :
  let r := resolve_collisions lander [step_lower; step_upper] (1 # 60) in
  Player.on_ground r = true /\ Player.vy r = 0%Q /\ (0 < Player.vy lander)%Q.
Proof.
  destruct (resolve_collisions_keeps lander [step_lower; step_upper] (1 # 60))
    as (_ & _ & _ & _ & _ & _ & _ & H).
  split; [reflexivity|]. apply H. reflexivity.
Defined.

(** A box set on top of a rectangle, or under it, does not overlap it. *)
Lemma set_bottom_clear (a b : Rect.t) (vx : Z) :
  0 < Rect.h a -> 0 < Rect.h b ->
  Rect.colliderect (Rect.set_x (Rect.set_bottom a (Rect.top b)) vx) b = false.
Proof.
  intros Ha Hb. unfold Rect.colliderect, Rect.set_x, Rect.set_bottom, Rect.set_y, Rect.top.
  cbn [Rect.x Rect.y Rect.w Rect.h].
  destruct (_ || _ || _ || _); [reflexivity|].
  replace (Z.max (Rect.y b - Rect.h a) (Rect.y b - Rect.h a + Rect.h a) >?
           Z.min (Rect.y b) (Rect.y b + Rect.h b)) with false.
  - rewrite andb_false_r. reflexivity.
  - symmetry. rewrite Z.gtb_ltb. apply Z.ltb_ge. lia.
Qed.

Lemma set_top_clear (a b : Rect.t) (vx : Z) :
  0 < Rect.h a -> 0 < Rect.h b ->
  Rect.colliderect (Rect.set_x (Rect.set_top a (Rect.bottom b)) vx) b = false.
Proof.
  intros Ha Hb. unfold Rect.colliderect, Rect.set_x, Rect.set_top, Rect.set_y, Rect.bottom.
  cbn [Rect.x Rect.y Rect.w Rect.h].
  destruct (_ || _ || _ || _); [reflexivity|].
  replace (Z.min (Rect.y b + Rect.h b) (Rect.y b + Rect.h b + Rect.h a) <?
           Z.max (Rect.y b) (Rect.y b + Rect.h b)) with false.
  - rewrite andb_false_r. reflexivity.
  - symmetry. apply Z.ltb_ge. lia.
Qed.

(** X5.  Landing is contact, not overlap.  When the first platform [p]
    that overlaps the moved box stops a Body that is falling or rising
    (both of positive height), the box [resolve_collisions] returns only
    touches [p], wherever the horizontal displacement takes it; so the
    [World.update] that follows does not activate [p]: a platform that
    has not been activated comes out of its update unchanged. *)
Theorem landing_does_not_activate
  (pl : Player.t) (pre post : list Platform.t) (p : Platform.t) (dt dt' : Q) :
  let moved := vertical_move pl dt in
  overlaps moved pre = false ->
  Rect.colliderect (Player.rect moved) (Platform.rect p) = true ->
  ~ (Player.vy pl == 0)%Q ->
  0 < Rect.h (Player.rect pl) ->
  0 < Rect.h (Platform.rect p) ->
  let r := resolve_collisions pl (pre ++ p :: post) dt in
  Rect.colliderect (Player.rect r) (Platform.rect p) = false /\
  (Platform.activated p = false -> World.update_platform dt' r p = p).
Proof.
  intros moved Hpre Hp Hvy Ha Hb r.
  assert (Hc : Rect.colliderect (Player.rect r) (Platform.rect p) = false).
  { subst r. unfold resolve_collisions.
    destruct (horizontal_pass_keeps (vertical_pass pl (pre ++ p :: post) dt)
                (pre ++ p :: post) dt) as (_ & _ & _ & _ & _ & _ & Hr).
    rewrite Hr.
    assert (Hvp : vertical_pass pl (pre ++ p :: post) dt = vertical_step moved p).
    { unfold vertical_pass. rewrite fold_left_app. fold moved.
      rewrite (vertical_loop_clear pre moved Hpre). cbn [fold_left].
      apply vertical_loop_settled.
      apply (vertical_step_hit moved p Hp). }
    rewrite Hvp.
    destruct (vertical_step_hit moved p Hp) as (_ & Hfall & Hrise & _).
    assert (Hm : Rect.h (Player.rect moved) = Rect.h (Player.rect pl)) by reflexivity.
    destruct (Qlt_le_dec 0 (Player.vy pl)) as [Hpos | Hneg].
    - destruct (Hfall Hpos) as [E _]. rewrite E.
      apply set_bottom_clear; [rewrite Hm; exact Ha | exact Hb].
    - assert (Hlt : (Player.vy pl < 0)%Q).
      { apply Qle_lt_or_eq in Hneg. destruct Hneg as [L | L]; [exact L|].
        exfalso. apply Hvy. exact L. }
      destruct (Hrise Hlt) as [E _]. rewrite E.
      apply set_top_clear; [rewrite Hm; exact Ha | exact Hb]. }
  split; [exact Hc|].
  intro Hact. unfold World.update_platform. rewrite Hc, Hact.
  destruct (Platform.temporary p); reflexivity.
Qed.

Lemma landing_does_not_activate_witness :
  let r := resolve_collisions lander ([] ++ bridge_low :: []) (1 # 60) in
  Player.on_ground r = true /\
  Rect.colliderect (Player.rect r) (Platform.rect bridge_low) = false /\
  World.update_platform 1 r bridge_low = bridge_low.
Proof.
  split; [reflexivity|].
  assert (Hvy : ~ (Player.vy lander == 0)%Q) by discriminate.
  destruct (landing_does_not_activate lander [] [] bridge_low (1 # 60) 1
              eq_refl eq_refl Hvy eq_refl eq_refl) as [H1 H2].
  split; [exact H1 | exact (H2 eq_refl)].
Defined.

(** Both passes are idle when nothing overlaps. *)
Lemma resolve_collisions_clear (pl : Player.t) (ps : list Platform.t) (dt : Q) :
  overlaps (vertical_move pl dt) ps = false ->
  overlaps (horizontal_move (vertical_move pl dt) dt) ps = false ->
  resolve_collisions pl ps dt = horizontal_move (vertical_move pl dt) dt.
Proof.
  intros Hv Hh. unfold resolve_collisions, vertical_pass.
  rewrite (vertical_loop_clear ps _ Hv), horizontal_pass_closed, Hh. reflexivity.
Qed.

(** X6.  The box runs ahead of the Body.  [physics] puts the box at the
    truncated new position and [resolve_collisions] then moves it again
    by the truncated displacement of the same step: after a step without
    overlap the box is at [int(x) + int(vx*dt)], [int(y) + int(vy*dt)]
    for the Body's new [x], [y], [vx], [vy]. *)
Theorem box_runs_ahead (pl : Player.t) (ps : list Platform.t) (dt : Q) :
  let moving := Player.physics pl dt in
  overlaps (vertical_move moving dt) ps = false ->
  overlaps (horizontal_move (vertical_move moving dt) dt) ps = false ->
  let r := resolve_collisions moving ps dt in
  (Player.x r == Player.x pl + Player.vx pl * dt)%Q /\
  (Player.y r == Player.y pl + Player.vy r * dt)%Q /\
  Rect.x (Player.rect r) = Num.py_int (Player.x r) + Num.py_int (Player.vx r * dt) /\
  Rect.y (Player.rect r) = Num.py_int (Player.y r) + Num.py_int (Player.vy r * dt).
Proof.
  intros moving Hv Hh r. subst r.
  rewrite (resolve_collisions_clear moving ps dt Hv Hh).
  subst moving. unfold Player.physics, horizontal_move, vertical_move. cbn.
  repeat split; reflexivity.
Qed.

Lemma box_runs_ahead_witness :
  let r := resolve_collisions (Player.physics faller (1 # 60)) [ground] (1 # 60) in
  Rect.x (Player.rect r) = 122 + 2 /\ Rect.y (Player.rect r) = 105 + 5.
Proof.
  destruct (box_runs_ahead faller [ground] (1 # 60) eq_refl eq_refl)
    as (_ & _ & Hx & Hy).
  split; [exact Hx | exact Hy].
Defined.

(** ** More on World.generate_until *)

(** The platform one iteration appends, in full. *)
Lemma generate_one_shape (wd : World.t) (g : Random.t) :
  exists p dy,
    World.platforms (fst (World.generate_one wd g)) = World.platforms wd ++ [p] /\
    World.max_x (fst (World.generate_one wd g)) = Platform.x p + Platform.w p /\
    World.max_x wd + PLATFORM_MIN_GAP <= Platform.x p <= World.max_x wd + PLATFORM_MAX_GAP /\
    -120 <= dy <= 120 /\
    Platform.y p =
      Num.py_maxZ PLATFORM_MIN_Y (Num.py_minZ PLATFORM_MAX_Y (World.get_last_y wd + dy)) /\
    fresh p.
Proof.
  destruct (generate_one_spec wd g) as (p0 & Hp0 & _ & _ & Hw0 & Hy0 & _).
  revert Hp0 Hw0 Hy0. unfold World.generate_one.
  destruct (Random.randint PLATFORM_MIN_WIDTH PLATFORM_MAX_WIDTH g) as [width g1].
  pose proof (randint_range PLATFORM_MIN_GAP PLATFORM_MAX_GAP g1) as Hg.
  destruct (Random.randint PLATFORM_MIN_GAP PLATFORM_MAX_GAP g1) as [gap g2].
  pose proof (randint_range (-120) 120 g2) as Hd.
  destruct (Random.randint (-120) 120 g2) as [dy g3].
  destruct (Random.random g3) as [u g4].
  cbn [fst World.platforms] in *. intros Hp0 Hw0 Hy0.
  apply app_inj_tail in Hp0. destruct Hp0 as [_ Hp0]. subst p0.
  eexists. exists dy. split; [reflexivity|].
  cbn [World.max_x Platform.x Platform.w Platform.y Platform.init] in *.
  split; [reflexivity|].
  specialize (Hg ltac:(unfold PLATFORM_MIN_GAP, PLATFORM_MAX_GAP; lia)).
  specialize (Hd ltac:(lia)).
  split; [lia|]. split; [exact Hd|]. split; [reflexivity|].
  unfold fresh. cbn. repeat split; try apply Hw0; try apply Hy0.
Qed.

Lemma generate_loop_extends (fuel : nat) (wd : World.t) (limit_x : Q) (g : Random.t) :
  exists added,
    World.platforms (fst (World.generate_loop fuel wd limit_x g)) =
      World.platforms wd ++ added /\
    Forall fresh added.
Proof.
  revert wd g. induction fuel as [|k IH]; intros wd g.
  - exists []. cbn. rewrite app_nil_r. split; [reflexivity | constructor].
  - cbn [World.generate_loop].
    destruct (Num.ltb (inject_Z (World.max_x wd)) limit_x).
    + destruct (generate_one_shape wd g) as (p & dy & Hp & _ & _ & _ & _ & Hf).
      destruct (World.generate_one wd g) as [wd' g']. cbn [fst] in Hp.
      destruct (IH wd' g') as (added & Ha & Hall).
      exists (p :: added). rewrite Ha, Hp, <- app_assoc. split; [reflexivity|].
      constructor; assumption.
    + exists []. cbn. rewrite app_nil_r. split; [reflexivity | constructor].
Qed.

Lemma generate_loop_overshoot (fuel : nat) (wd : World.t) (limit_x : Q) (g : Random.t) :
  (inject_Z (World.max_x wd) < limit_x + 420)%Q ->
  (inject_Z (World.max_x (fst (World.generate_loop fuel wd limit_x g))) < limit_x + 420)%Q.
Proof.
  revert wd g. induction fuel as [|k IH]; intros wd g H; [exact H|].
  cbn [World.generate_loop].
  destruct (Num.ltb (inject_Z (World.max_x wd)) limit_x) eqn:E; [|exact H].
  apply ltb_lt in E.
  destruct (generate_one_spec wd g) as (p & _ & Hm & Hx & Hw & _).
  destruct (World.generate_one wd g) as [wd' g']. cbn [fst] in Hm.
  apply IH. rewrite Hm.
  assert (Hz : Platform.x p + Platform.w p <= World.max_x wd + 420)
    by (unfold PLATFORM_MAX_GAP, PLATFORM_MAX_WIDTH in *; lia).
  apply Qle_lt_trans with (inject_Z (World.max_x wd + 420)).
  - rewrite <- Zle_Qle. exact Hz.
  - rewrite inject_Z_plus. apply Qplus_lt_l. exact E.
Qed.

(** X7.  What a call of [generate_until] guarantees, whatever the random
    source draws: it returns with the frontier at or past [limit_x], but
    less than 420 (the largest gap plus the largest width) past it if
    the frontier started short of it; it only appends, and only fresh
    platforms; and with the frontier already at [limit_x] it changes
    neither the World nor the generator. *)
Theorem generate_until_guarantees (wd : World.t) (limit_x : Q) (g : Random.t) :
  let r := World.generate_until wd limit_x g in
  (limit_x <= inject_Z (World.max_x (fst r)))%Q /\
  (exists added,
     World.platforms (fst r) = World.platforms wd ++ added /\ Forall fresh added) /\
  (Num.ltb (inject_Z (World.max_x wd)) limit_x = true ->
     (inject_Z (World.max_x (fst r)) < limit_x + 420)%Q) /\
  (Num.ltb (inject_Z (World.max_x wd)) limit_x = false -> r = (wd, g)).
Proof.
  intro r. subst r. split; [|split; [|split]].
  - apply generate_loop_reaches. unfold World.generate_fuel. lia.
  - apply generate_loop_extends.
  - intro H. apply ltb_lt in H. apply generate_loop_overshoot.
    apply Qlt_le_trans with limit_x; [exact H|].
    rewrite <- (Qplus_0_r limit_x) at 1. apply Qplus_le_r. discriminate.
  - intro H. unfold World.generate_until.
    destruct (World.generate_fuel wd limit_x); cbn [World.generate_loop];
      [reflexivity | rewrite H; reflexivity].
Qed.

Lemma generate_until_guarantees_witness :
  (inject_Z (World.max_x (fst (World.generate_until World.init 1960 seeds))) < 1960 + 420)%Q /\
  World.generate_until World.init 500 seeds = (World.init, seeds).
Proof.
  destruct (generate_until_guarantees World.init 1960 seeds) as (_ & _ & H1 & _).
  destruct (generate_until_guarantees World.init 500 seeds) as (_ & _ & _ & H2).
  split; [exact (H1 eq_refl) | exact (H2 eq_refl)].
Defined.

Lemma get_last_y_snoc (ps : list Platform.t) (p : Platform.t) (m : Z) :
  World.get_last_y {| World.platforms := ps ++ [p]; World.max_x := m |} = Platform.y p.
Proof. unfold World.get_last_y. cbn [World.platforms]. rewrite rev_unit. reflexivity. Qed.

Lemma course_last (ps : list Platform.t) (l : Platform.t) :
  course ps l ->
  (exists ps', ps = ps' ++ [l]) /\ PLATFORM_MIN_Y <= Platform.y l <= SCREEN_HEIGHT - 40.
Proof.
  intro H. destruct H as [|ps l p Hc Hr Hf].
  - split; [exists []; reflexivity|].
    unfold ground, PLATFORM_MIN_Y, SCREEN_HEIGHT. cbn [Platform.y Platform.init]. lia.
  - split; [exists ps; reflexivity|].
    destruct Hf as (_ & Hy & _).
    unfold PLATFORM_MIN_Y, PLATFORM_MAX_Y, SCREEN_HEIGHT in *. lia.
Qed.

Lemma generate_one_on_course (wd : World.t) (g : Random.t) :
  on_course wd -> on_course (fst (World.generate_one wd g)).
Proof.
  intros (l & Hc & Hm).
  destruct (course_last _ _ Hc) as ((ps' & Eps) & Hly).
  destruct (generate_one_shape wd g) as (p & dy & Hp & Hm' & Hx & Hd & Hy & Hf).
  exists p. split; [|exact Hm'].
  rewrite Hp. apply (course_next _ l); [exact Hc | | exact Hf].
  assert (Hl : World.get_last_y wd = Platform.y l).
  { destruct wd as [ps m]. cbn [World.platforms] in Eps. subst ps.
    apply get_last_y_snoc. }
  rewrite Hl in Hy. unfold reachable. rewrite <- Hm.
  split; [lia|]. split; [lia|].
  rewrite Hy. unfold Num.py_maxZ, Num.py_minZ,
    PLATFORM_MIN_Y, PLATFORM_MAX_Y, SCREEN_HEIGHT in *.
  change (560 - 60) with 500. change (560 - 40) with 520 in Hly.
  destruct (Z.ltb_spec (Platform.y l + dy) 500);
    match goal with |- context [120 <? ?v] => destruct (Z.ltb_spec 120 v) end; lia.
Qed.

Lemma generate_loop_on_course (fuel : nat) (wd : World.t) (limit_x : Q) (g : Random.t) :
  on_course wd -> on_course (fst (World.generate_loop fuel wd limit_x g)).
Proof.
  revert wd g. induction fuel as [|k IH]; intros wd g H; [exact H|].
  cbn [World.generate_loop].
  destruct (Num.ltb (inject_Z (World.max_x wd)) limit_x); [|exact H].
  pose proof (generate_one_on_course wd g H) as H1.
  destruct (World.generate_one wd g) as [wd' g']. apply IH. exact H1.
Qed.

Lemma generate_calls_on_course (limits : list Q) (wd : World.t) (g : Random.t) :
  on_course wd -> on_course (fst (generate_calls wd limits g)).
Proof.
  revert wd g. induction limits as [|l limits IH]; intros wd g H; [exact H|].
  cbn [generate_calls].
  pose proof (generate_loop_on_course (World.generate_fuel wd l) wd l g H) as H1.
  fold (World.generate_until wd l g) in H1.
  destruct (World.generate_until wd l g) as [wd' g']. apply IH. exact H1.
Qed.

Lemma course_shape (ps : list Platform.t) (l : Platform.t) :
  course ps l ->
  (exists rest, ps = ground :: rest /\ Forall fresh rest) /\
  (forall l1 p q l2, ps = l1 ++ p :: q :: l2 -> reachable p q).
Proof.
  induction 1 as [|ps l p Hc IH Hr Hf].
  - split; [exists []; split; [reflexivity | constructor]|].
    intros l1 p q l2 E. destruct l1 as [|a [|b l1]]; discriminate E.
  - destruct IH as ((rest & Eps & Hall) & Hn). split.
    + exists (rest ++ [p]). split; [rewrite Eps; reflexivity|].
      apply Forall_app. split; [exact Hall | constructor; [exact Hf | constructor]].
    + intros l1 p' q l2 E.
      destruct (neighbours_snoc _ _ _ _ _ _ E) as [(-> & -> & El) | (l2' & -> & El)].
      * destruct (course_last _ _ Hc) as ((ps' & Eps') & _).
        rewrite El in Eps'. apply app_inj_tail in Eps'. destruct Eps' as [_ ->].
        exact Hr.
      * exact (Hn l1 p' q l2' El).
Qed.

(** X8.  The course laid out.  After any sequence of [generate_until]
    calls on a fresh World the platforms are the ground followed by
    fresh platforms only (width 60..300, [y] in 120..500, height 20,
    not activated, timer 2.0, box in step with the coordinates), and
    each platform is reachable from its predecessor: the horizontal gap
    is between 60 and 120 and the heights differ by at most 120. *)
Theorem generated_course (limits : list Q) (g : Random.t) :
  let wd := fst (generate_calls World.init limits g) in
  (exists rest, World.platforms wd = ground :: rest /\ Forall fresh rest) /\
  (forall l1 p q l2, World.platforms wd = l1 ++ p :: q :: l2 -> reachable p q).
Proof.
  intro wd.
  assert (H : on_course wd).
  { apply generate_calls_on_course. exists ground. split; [constructor | reflexivity]. }
  destruct H as (l & Hc & _). exact (course_shape _ _ Hc).
Qed.

Lemma generated_course_witness :
  let wd := fst (generate_calls World.init [1960%Q] seeds) in
  match World.platforms wd with
  | p :: q :: _ => reachable p q
  | _ => True
  end.
Proof.
  intro wd.
  destruct (generated_course [1960%Q] seeds) as (_ & H). fold wd in H.
  destruct (World.platforms wd) as [|p [|q rest]] eqn:E; try exact I.
  exact (H [] p q rest eq_refl).
Defined.

(** ** More on World.update and World.cleanup *)

Lemma filter_weaker {A : Type} (f g : A -> bool) (l : list A) :
  (forall a, g a = true -> f a = true) ->
  filter g (filter f l) = filter g l.
Proof.
  intro H. induction l as [|a l IH]; [reflexivity|].
  cbn [filter]. destruct (f a) eqn:Ef.
  - cbn [filter]. rewrite IH. reflexivity.
  - destruct (g a) eqn:Eg; [|exact IH].
    rewrite (H a Eg) in Ef. discriminate Ef.
Qed.

Lemma filter_swap {A : Type} (f g : A -> bool) (l : list A) :
  filter f (filter g l) = filter g (filter f l).
Proof.
  induction l as [|a l IH]; [reflexivity|].
  cbn [filter]. destruct (f a) eqn:Ef, (g a) eqn:Eg; cbn [filter];
    rewrite ?Ef, ?Eg, IH; reflexivity.
Qed.

Lemma filter_map_stable {A : Type} (f : A -> bool) (u : A -> A) (l : list A) :
  (forall a, f (u a) = f a) ->
  filter f (map u l) = map u (filter f l).
Proof.
  intro H. induction l as [|a l IH]; [reflexivity|].
  cbn [map filter]. rewrite H. destruct (f a); cbn [map]; rewrite IH; reflexivity.
Qed.

(** [update] writes only [activated] and [timer]. *)
Lemma update_platform_geometry (dt : Q) (pl : Player.t) (p : Platform.t) :
  let p' := World.update_platform dt pl p in
  Platform.x p' = Platform.x p /\ Platform.y p' = Platform.y p /\
  Platform.w p' = Platform.w p /\ Platform.h p' = Platform.h p /\
  Platform.rect p' = Platform.rect p /\
  Platform.temporary p' = Platform.temporary p.
Proof.
  unfold World.update_platform.
  destruct (Platform.temporary p) eqn:Et; [|rewrite Et; repeat split].
  destruct (Rect.colliderect _ _); cbn [Platform.activated Platform.set_activated];
    [cbn; repeat split; exact Et|].
  destruct (Platform.activated p); cbn; repeat split; exact Et.
Qed.

Lemma update_platform_permanent (dt : Q) (pl : Player.t) (p : Platform.t) :
  permanent p = true ->
  World.update_platform dt pl p = p /\ World.survives p = true.
Proof.
  unfold permanent, World.update_platform, World.survives. intro H.
  apply negb_true_iff in H. rewrite H. split; reflexivity.
Qed.

(** X9.  [update] spares the permanent platforms: the non-temporary
    platforms of the World are the same, in the same order and state,
    before and after; the frontier [max_x] is left alone; and no
    surviving platform is at once temporary, activated and at or past
    its lifetime. *)
Theorem update_spares_permanent (wd : World.t) (dt : Q) (pl : Player.t) :
  let wd' := World.update wd dt pl in
  filter permanent (World.platforms wd') = filter permanent (World.platforms wd) /\
  World.max_x wd' = World.max_x wd /\
  Forall (fun p => Platform.temporary p = false \/ Platform.activated p = false \/
                   (Platform.timer p < TEMP_PLATFORM_LIFETIME)%Q)
         (World.platforms wd').
Proof.
  cbv zeta. unfold World.update. cbn [World.platforms World.max_x].
  split; [|split; [reflexivity|]].
  - rewrite filter_weaker.
    + induction (World.platforms wd) as [|p ps IH]; [reflexivity|].
      cbn [map filter].
      destruct (update_platform_geometry dt pl p) as (_ & _ & _ & _ & _ & Ht).
      assert (Hperm : permanent (World.update_platform dt pl p) = permanent p)
        by (unfold permanent; cbv zeta in Ht; rewrite Ht; reflexivity).
      rewrite Hperm. destruct (permanent p) eqn:E; [|exact IH].
      rewrite IH. f_equal. apply update_platform_permanent. exact E.
    + intros a Ha. unfold permanent in Ha. apply negb_true_iff in Ha.
      unfold World.survives. rewrite Ha. reflexivity.
  - apply Forall_forall. intros p Hp. apply filter_In in Hp. destruct Hp as [_ Hs].
    unfold World.survives in Hs. apply negb_true_iff in Hs.
    destruct (Platform.temporary p); [|left; reflexivity].
    destruct (Platform.activated p); [|right; left; reflexivity].
    right; right. cbn [andb] in Hs. apply geb_lt. exact Hs.
Qed.

(** X10.  Cleanup composes: cleaning up for a camera position and then
    for one at or to the right of it is the same as cleaning up for the
    later position alone. *)
Theorem cleanup_monotone (wd : World.t) (c1 c2 : Q) :
  (c1 <= c2)%Q ->
  World.cleanup (World.cleanup wd c1) c2 = World.cleanup wd c2.
Proof.
  intro H. unfold World.cleanup. cbn [World.platforms World.max_x]. f_equal.
  apply filter_weaker. intros p Hp. unfold World.ahead_of in *.
  apply ltb_lt in Hp. apply ltb_lt. lra.
Qed.

Lemma cleanup_monotone_witness :
  World.cleanup (World.cleanup bridge_world 700) 900 = World.cleanup bridge_world 900.
Proof. apply cleanup_monotone. discriminate. Defined.

(** X11.  [update] and [cleanup] commute: ageing the platforms and then
    dropping those behind the camera gives the same World as dropping
    first and ageing the rest. *)
Theorem cleanup_update_commute (wd : World.t) (dt cam_x : Q) (pl : Player.t) :
  World.cleanup (World.update wd dt pl) cam_x =
  World.update (World.cleanup wd cam_x) dt pl.
Proof.
  unfold World.cleanup, World.update. cbn [World.platforms World.max_x]. f_equal.
  rewrite filter_swap. f_equal. apply filter_map_stable.
  intro p. unfold World.ahead_of.
  destruct (update_platform_geometry dt pl p) as (Hx & _ & Hw & _).
  cbv zeta in Hx, Hw. rewrite Hx, Hw. reflexivity.
Qed.

(** ** The World over a whole game *)

Lemma StronglySorted_filter_keeps {A : Type} (R : A -> A -> Prop) (f : A -> bool)
  (l : list A) :
  StronglySorted R l -> StronglySorted R (filter f l).
Proof.
  induction 1 as [|a l Hs IH Ha]; [constructor|].
  cbn [filter]. destruct (f a); [|exact IH].
  constructor; [exact IH|].
  apply Forall_forall. intros b Hb. apply filter_In in Hb.
  rewrite Forall_forall in Ha. apply Ha. apply Hb.
Qed.

Lemma StronglySorted_map_stable {A : Type} (R : A -> A -> Prop) (u : A -> A)
  (l : list A) :
  (forall a b, R a b -> R (u a) (u b)) ->
  StronglySorted R l -> StronglySorted R (map u l).
Proof.
  intro H. induction 1 as [|a l Hs IH Ha]; [constructor|].
  cbn [map]. constructor; [exact IH|].
  apply Forall_forall. intros b Hb. apply in_map_iff in Hb.
  destruct Hb as (b0 & <- & Hb0). rewrite Forall_forall in Ha. auto.
Qed.

Lemma init_tidy : tidy World.init.
Proof.
  split.
  - repeat constructor.
  - constructor; [|constructor]. unfold sound. cbn. repeat split. discriminate.
Qed.

Lemma generate_one_tidy (wd : World.t) (g : Random.t) :
  tidy wd -> tidy (fst (World.generate_one wd g)).
Proof.
  intros [Hs Hall].
  destruct (generate_one_shape wd g) as (p & dy & Hp & Hm & Hx & _ & _ & Hf).
  destruct Hf as (Hw & _ & Hh & _ & _ & Hr).
  unfold PLATFORM_MIN_WIDTH, PLATFORM_MIN_GAP in *.
  unfold tidy. rewrite Hp, Hm. split.
  - apply StronglySorted_snoc; [exact Hs|].
    eapply Forall_impl; [|exact Hall]. cbn beta.
    intros q (_ & _ & Hq & _). unfold gap_before, PLATFORM_MIN_GAP. lia.
  - apply Forall_app. split.
    + eapply Forall_impl; [|exact Hall]. cbn beta.
      intros q (Hq1 & Hq2 & Hq3 & Hq4). unfold sound. repeat split; auto. lia.
    + constructor; [|constructor]. unfold sound. repeat split; auto; lia.
Qed.

Lemma generate_loop_tidy (fuel : nat) (wd : World.t) (limit_x : Q) (g : Random.t) :
  tidy wd -> tidy (fst (World.generate_loop fuel wd limit_x g)).
Proof.
  revert wd g. induction fuel as [|k IH]; intros wd g H; [exact H|].
  cbn [World.generate_loop].
  destruct (Num.ltb (inject_Z (World.max_x wd)) limit_x); [|exact H].
  pose proof (generate_one_tidy wd g H) as H1.
  destruct (World.generate_one wd g) as [wd' g']. apply IH. exact H1.
Qed.

Lemma update_tidy (wd : World.t) (dt : Q) (pl : Player.t) :
  tidy wd -> tidy (World.update wd dt pl).
Proof.
  intros [Hs Hall]. unfold tidy, World.update. cbn [World.platforms World.max_x].
  split.
  - apply StronglySorted_filter_keeps. apply StronglySorted_map_stable; [|exact Hs].
    intros a b. unfold gap_before.
    destruct (update_platform_geometry dt pl a) as (Hx & _ & Hw & _).
    destruct (update_platform_geometry dt pl b) as (Hx' & _).
    cbv zeta in *. rewrite Hx, Hw, Hx'. auto.
  - apply Forall_forall. intros p Hp. apply filter_In in Hp. destruct Hp as [Hp _].
    apply in_map_iff in Hp. destruct Hp as (p0 & <- & Hp0).
    rewrite Forall_forall in Hall. specialize (Hall p0 Hp0).
    destruct (update_platform_geometry dt pl p0) as (Hx & Hy & Hw & Hh & Hr & _).
    cbv zeta in *. unfold sound in *. rewrite Hx, Hy, Hw, Hh, Hr. exact Hall.
Qed.

Lemma cleanup_tidy (wd : World.t) (cam_x : Q) :
  tidy wd -> tidy (World.cleanup wd cam_x).
Proof.
  intros [Hs Hall]. unfold tidy, World.cleanup. cbn [World.platforms World.max_x].
  split.
  - apply StronglySorted_filter_keeps. exact Hs.
  - apply Forall_forall. intros p Hp. apply filter_In in Hp.
    rewrite Forall_forall in Hall. apply Hall. apply Hp.
Qed.

Lemma tick_world (st : Game.t) (dt : Q) (keys : Keys) :
  exists pl,
    Game.world (Game.tick st dt keys) =
      World.cleanup
        (World.update
           (fst (World.generate_until (Game.world st)
                   (Game.camera_x st + inject_Z GEN_AHEAD) (Game.rng st)))
           dt pl)
        (Game.camera_x st).
Proof.
  unfold Game.tick.
  destruct (World.generate_until _ _ _) as [wd1 g1].
  eexists. reflexivity.
Qed.

Lemma tick_tidy (st : Game.t) (dt : Q) (keys : Keys) :
  tidy (Game.world st) -> tidy (Game.world (Game.tick st dt keys)).
Proof.
  intro H. destruct (tick_world st dt keys) as (pl & E). rewrite E.
  apply cleanup_tidy, update_tidy. apply generate_loop_tidy. exact H.
Qed.

Lemma handle_event_tidy (st : Game.t) (ev : Event) :
  tidy (Game.world st) -> tidy (Game.world (Game.handle_event st ev)).
Proof.
  intro H. destruct ev as [|k|]; cbn [Game.handle_event]; [exact H| |exact H].
  destruct (is_escape k); cbn [Game.in_menu Game.stop];
    destruct (Game.in_menu st && is_space k); cbn; try exact H; apply init_tidy.
Qed.

Lemma frame_tidy (st : Game.t) (i : Game.Input) :
  tidy (Game.world st) -> tidy (Game.world (Game.frame st i)).
Proof.
  intro H. unfold Game.frame.
  assert (H1 : tidy (Game.world (fold_left Game.handle_event (Game.events i) st))).
  { revert st H. induction (Game.events i) as [|ev evs IH]; intros st H; [exact H|].
    cbn [fold_left]. apply IH. apply handle_event_tidy. exact H. }
  destruct (negb _); [apply tick_tidy|]; exact H1.
Qed.

(** X12.  The World stays tidy through a whole game.  From the start of
    [main], whatever the inputs and the random draws, after any number
    of loop iterations (ticks, deaths and restarts included) any two
    platforms of the World are separated by at least the minimum gap in
    list order, and every platform has positive width and height, lies
    inside the frontier [max_x] and has its box in step with its
    coordinates. *)
Theorem world_stays_tidy (inputs : list Game.Input) (g : Random.t) :
  tidy (Game.world (Game.run (Game.init g) inputs)).
Proof.
  assert (H : forall st, tidy (Game.world st) -> tidy (Game.world (Game.run st inputs))).
  { induction inputs as [|i inputs IH]; intros st Hst; cbn [Game.run]; [exact Hst|].
    destruct (Game.running st); [|exact Hst]. apply IH. apply frame_tidy. exact Hst. }
  apply H. apply init_tidy.
Qed.

Lemma StronglySorted_pair {A : Type} (R : A -> A -> Prop) (l1 l2 l3 : list A) (p q : A) :
  StronglySorted R (l1 ++ p :: l2 ++ q :: l3) -> R p q.
Proof.
  induction l1 as [|a l1 IH]; cbn [app]; intro H.
  - apply StronglySorted_inv in H. destruct H as [_ H].
    rewrite Forall_forall in H. apply H. apply in_or_app. right. left. reflexivity.
  - apply StronglySorted_inv in H. apply IH. apply H.
Qed.

(** X13.  One platform at a time.  In a tidy World a box no wider than
    the minimum gap (the Body's is 36 wide) that overlaps a platform
    overlaps no platform after it: the vertical pass of
    [resolve_collisions] meets at most one overlapping platform. *)
Theorem overlap_is_unique (wd : World.t) (a : Rect.t)
  (l1 l2 l3 : list Platform.t) (p q : Platform.t) :
  tidy wd ->
  World.platforms wd = l1 ++ p :: l2 ++ q :: l3 ->
  0 < Rect.w a <= PLATFORM_MIN_GAP ->
  Rect.colliderect a (Platform.rect p) = true ->
  Rect.colliderect a (Platform.rect q) = false.
Proof.
  intros [Hs Hall] E Ha Hp. rewrite E in *.
  pose proof (StronglySorted_pair _ _ _ _ _ _ Hs) as Hg.
  rewrite Forall_forall in Hall.
  assert (Sp : sound (World.max_x wd) p).
  { apply Hall. apply in_or_app. right. left. reflexivity. }
  assert (Sq : sound (World.max_x wd) q).
  { apply Hall. apply in_or_app. right. right. apply in_or_app. right. left. reflexivity. }
  destruct Sp as (Wp & _ & _ & Rp). destruct Sq as (Wq & _ & _ & Rq).
  unfold gap_before in Hg. rewrite Rp in Hp. rewrite Rq.
  unfold Rect.colliderect in *. cbn [Rect.x Rect.y Rect.w Rect.h] in *.
  match goal with |- (if ?c then false else _) = false =>
    destruct c; [reflexivity|] end.
  match type of Hp with (if ?c then false else _) = true =>
    destruct c; [discriminate Hp|] end.
  apply andb_true_iff in Hp. destruct Hp as [Hp _].
  apply andb_true_iff in Hp. destruct Hp as [Hp _].
  apply andb_true_iff in Hp. destruct Hp as [Hp _].
  apply Z.ltb_lt in Hp.
  replace (Z.max (Rect.x a) (Rect.x a + Rect.w a) >?
           Z.min (Platform.x q) (Platform.x q + Platform.w q)) with false.
  - rewrite andb_false_r. reflexivity.
  - symmetry. rewrite Z.gtb_ltb. apply Z.ltb_ge. lia.
Qed.

Lemma overlap_is_unique_witness :
  Rect.colliderect edge_box (Platform.rect ground) = true /\
  Rect.colliderect edge_box (Platform.rect (Platform.init 600 400 100 20 false)) = false.
Proof.
  split; [reflexivity|].
  apply (overlap_is_unique two_steps edge_box [] [] [] ground).
  - split; repeat first [ constructor | (vm_compute; discriminate) ].
  - reflexivity.
  - split; [reflexivity | discriminate].
  - reflexivity.
Defined.

(** ** More on the main loop *)

(** The fields a tick writes, one by one. *)
Lemma tick_fields (st : Game.t) (dt : Q) (keys : Keys) :
  let pl := resolve_collisions (steered (Game.player st) keys dt)
              (World.platforms (Game.world st)) dt in
  let st' := Game.tick st dt keys in
  Game.player st' = pl /\
  Game.score st' = Num.floordiv10 (Player.x pl) /\
  Game.in_menu st' = (if death_check pl then true else Game.in_menu st) /\
  Game.highscore st' =
    (if death_check pl
     then Num.py_maxZ (Game.highscore st) (Num.floordiv10 (Player.x pl))
     else Game.highscore st) /\
  Game.running st' = Game.running st /\
  Game.camera_x st' =
    (Game.camera_x st +
     (Player.x pl - inject_Z SCREEN_WIDTH * (3 # 10) - Game.camera_x st) *
     Num.py_min 1 (8 * dt))%Q /\
  World.max_x (Game.world st') =
    World.max_x (fst (World.generate_until (Game.world st)
                        (Game.camera_x st + inject_Z GEN_AHEAD) (Game.rng st))).
Proof.
  unfold Game.tick, steered.
  destruct (World.generate_until _ _ _) as [wd1 g1].
  cbn. repeat split.
Qed.

Lemma py_maxZ_bounds (a b : Z) : a <= Num.py_maxZ a b /\ b <= Num.py_maxZ a b.
Proof. unfold Num.py_maxZ. destruct (Z.ltb_spec a b); lia. Qed.

Lemma handle_event_highscore (st : Game.t) (ev : Event) :
  Game.highscore (Game.handle_event st ev) = Game.highscore st.
Proof.
  destruct ev as [|k|]; cbn [Game.handle_event]; [reflexivity| |reflexivity].
  destruct (is_escape k); cbn [Game.in_menu Game.stop];
    destruct (Game.in_menu st && is_space k); reflexivity.
Qed.

Lemma frame_highscore (st : Game.t) (i : Game.Input) :
  Game.highscore st <= Game.highscore (Game.frame st i).
Proof.
  unfold Game.frame.
  assert (H : Game.highscore (fold_left Game.handle_event (Game.events i) st) =
              Game.highscore st).
  { revert st. induction (Game.events i) as [|ev evs IH]; intro st; [reflexivity|].
    cbn [fold_left]. rewrite IH. apply handle_event_highscore. }
  destruct (negb _); [|lia].
  destruct (tick_fields (fold_left Game.handle_event (Game.events i) st)
              (Game.dt i) (Game.keys i)) as (_ & _ & _ & Hh & _).
  rewrite Hh, H. destruct (death_check _); [apply py_maxZ_bounds | lia].
Qed.

(** X14.  The highscore never drops: over any run of the main loop, from
    any state, through ticks, deaths and restarts, the highscore at the
    end is at least the highscore at the start. *)
Theorem highscore_never_drops (inputs : list Game.Input) (st : Game.t) :
  Game.highscore st <= Game.highscore (Game.run st inputs).
Proof.
  revert st. induction inputs as [|i inputs IH]; intro st; cbn [Game.run]; [lia|].
  destruct (Game.running st); [|lia].
  pose proof (frame_highscore st i). pose proof (IH (Game.frame st i)). lia.
Qed.

(** X15.  A lateral collision ends the round.  In a tick in which the
    box, after the horizontal displacement, overlaps a platform, the
    Body is put at [y = SCREEN_HEIGHT + 1000], the menu opens, and the
    highscore is at least the score of the round. *)
Theorem lateral_collision_ends_round (st : Game.t) (dt : Q) (keys : Keys) :
  let ps := World.platforms (Game.world st) in
  let pl := steered (Game.player st) keys dt in
  overlaps (horizontal_move (vertical_pass pl ps dt) dt) ps = true ->
  let st' := Game.tick st dt keys in
  Player.y (Game.player st') = inject_Z (SCREEN_HEIGHT + 1000) /\
  Game.in_menu st' = true /\
  Game.score st' <= Game.highscore st'.
Proof.
  intros ps pl H st'.
  destruct (tick_fields st dt keys) as (Hp & Hs & Hm & Hh & _).
  fold ps in Hp, Hs, Hm, Hh. fold pl in Hp, Hs, Hm, Hh. fold st' in Hp, Hs, Hm, Hh.
  assert (Hy : Player.y (resolve_collisions pl ps dt) = inject_Z (SCREEN_HEIGHT + 1000)).
  { unfold resolve_collisions. rewrite horizontal_pass_closed, H. reflexivity. }
  assert (Hd : death_check (resolve_collisions pl ps dt) = true).
  { unfold death_check. rewrite Hy. reflexivity. }
  rewrite Hd in Hm, Hh. rewrite Hp, Hm, Hs, Hh.
  split; [exact Hy|]. split; [reflexivity | apply py_maxZ_bounds].
Qed.

Lemma lateral_collision_ends_round_witness :
  let st' := Game.tick doomed (1 # 60) hold_right in
  Game.in_menu doomed = false /\
  Game.in_menu st' = true /\
  Game.score st' <= Game.highscore st'.
Proof.
  split; [reflexivity|].
  destruct (lateral_collision_ends_round doomed (1 # 60) hold_right eq_refl)
    as (_ & Hm & Hs).
  split; [exact Hm | exact Hs].
Defined.

Lemma handle_event_running (st : Game.t) (ev : Event) :
  Game.running (Game.handle_event st ev) = Game.running st && negb (quits ev).
Proof.
  destruct ev as [|k|]; cbn [Game.handle_event quits].
  - cbn. rewrite andb_false_r. reflexivity.
  - destruct (is_escape k); cbn [Game.in_menu Game.stop negb];
      destruct (Game.in_menu st && is_space k); cbn;
      rewrite ?andb_false_r, ?andb_true_r; reflexivity.
  - cbn. rewrite andb_true_r. reflexivity.
Qed.

(** X16.  Only QUIT and ESCAPE end the loop: after an iteration,
    [running] holds exactly if it held before and none of the
    iteration's events is a QUIT or an ESCAPE key press.  A death, the
    menu and a restart leave [running] alone. *)
Theorem running_until_quit (st : Game.t) (i : Game.Input) :
  Game.running (Game.frame st i) =
    Game.running st && forallb (fun ev => negb (quits ev)) (Game.events i).
Proof.
  unfold Game.frame.
  assert (H : Game.running (fold_left Game.handle_event (Game.events i) st) =
              Game.running st && forallb (fun ev => negb (quits ev)) (Game.events i)).
  { revert st. induction (Game.events i) as [|ev evs IH]; intro st.
    - cbn. rewrite andb_true_r. reflexivity.
    - cbn [fold_left forallb]. rewrite IH, handle_event_running, andb_assoc.
      reflexivity. }
  destruct (negb _); [|exact H].
  destruct (tick_fields (fold_left Game.handle_event (Game.events i) st)
              (Game.dt i) (Game.keys i)) as (_ & _ & _ & _ & Hr & _).
  rewrite Hr. exact H.
Qed.




(** X18.  Look-ahead.  After every tick the frontier [max_x] of the
    World is at least [GEN_AHEAD] past the camera position the tick
    started with: [update] and [cleanup] never pull it back. *)
Theorem tick_keeps_lookahead (st : Game.t) (dt : Q) (keys : Keys) :
  (Game.camera_x st + inject_Z GEN_AHEAD <=
   inject_Z (World.max_x (Game.world (Game.tick st dt keys))))%Q.
Proof.
  destruct (tick_fields st dt keys) as (_ & _ & _ & _ & _ & _ & Hm).
  rewrite Hm. apply generate_loop_reaches. unfold World.generate_fuel. lia.
Qed.

(** ** Two edge cases of the World *)

(** X19.  The countdown does not need the Body.  For a temporary
    platform that is already activated, [update] adds [dt] to the timer
    and decides on removal in the same way wherever the Body is:
    stepping off an activated platform does not stop its countdown. *)
Theorem countdown_ignores_body (dt : Q) (pl pl' : Player.t) (p : Platform.t) :
  Platform.temporary p = true ->
  Platform.activated p = true ->
  World.update_platform dt pl p = World.update_platform dt pl' p /\
  World.update_platform dt pl p = Platform.set_timer p (Platform.timer p + dt).
Proof.
  intros Ht Ha. unfold World.update_platform. rewrite Ht.
  assert (E : forall b : bool, (if b then Platform.set_activated p true else p) = p).
  { intros [|]; [|reflexivity].
    destruct p as [x0 y0 w0 h0 r0 t0 tm0 a0]. cbn in Ha. subst a0. reflexivity. }
  rewrite !E, Ha. split; reflexivity.
Qed.

Lemma countdown_ignores_body_witness :
  let p := Platform.set_activated bridge true in
  World.update_platform 1 stander p = World.update_platform 1 faller p /\
  Platform.timer (World.update_platform 1 faller p) = 3%Q.
Proof.
  destruct (countdown_ignores_body 1 stander faller (Platform.set_activated bridge true)
              eq_refl eq_refl) as [H1 H2].
  split; [exact H1|]. rewrite <- H1, H2. reflexivity.
Defined.

(** X20.  Generation on an emptied World.  When every platform has been
    removed, [get_last_y] falls back to [SCREEN_HEIGHT - 200] and one
    iteration of [generate_until] yields a World of one fresh platform,
    60 to 120 past the old frontier and at most 120 above or below that
    fallback height. *)
Theorem generate_on_empty_world (wd : World.t) (g : Random.t) :
  World.platforms wd = [] ->
  exists p,
    World.platforms (fst (World.generate_one wd g)) = [p] /\
    fresh p /\
    World.max_x wd + PLATFORM_MIN_GAP <= Platform.x p <= World.max_x wd + PLATFORM_MAX_GAP /\
    SCREEN_HEIGHT - 200 - 120 <= Platform.y p <= SCREEN_HEIGHT - 200 + 120.
Proof.
  intro E.
  destruct (generate_one_shape wd g) as (p & dy & Hp & _ & Hx & Hd & Hy & Hf).
  exists p. rewrite Hp, E. split; [reflexivity|]. split; [exact Hf|].
  split; [exact Hx|].
  assert (Hl : World.get_last_y wd = SCREEN_HEIGHT - 200).
  { unfold World.get_last_y. rewrite E. reflexivity. }
  rewrite Hl in Hy. rewrite Hy.
  unfold Num.py_maxZ, Num.py_minZ, PLATFORM_MIN_Y, PLATFORM_MAX_Y, SCREEN_HEIGHT.
  change (560 - 60) with 500. change (560 - 200) with 360.
  destruct (Z.ltb_spec (360 + dy) 500);
    match goal with |- context [120 <? ?v] => destruct (Z.ltb_spec 120 v) end; lia.
Qed.

Lemma generate_on_empty_world_witness :
  exists p,
    World.platforms
      (fst (World.generate_one {| World.platforms := []; World.max_x := 900 |} seeds)) = [p] /\
    900 + PLATFORM_MIN_GAP <= Platform.x p <= 900 + PLATFORM_MAX_GAP.
Proof.
  destruct (generate_on_empty_world {| World.platforms := []; World.max_x := 900 |} seeds eq_refl)
    as (p & Hp & _ & Hx & _).
  exists p. split; [exact Hp | exact Hx].
Defined.
